(** * Block reward and sync-duty client

    A shallow embedding of the client ([client.go]: the rate-limited
    transport, the REST query layer, the slot validation, the reward
    computation and the sync-duty resolver) and of the two handlers of
    [main.go], in their current version, followed by the properties of the
    reward query, of the slot bounds and of the error mapping.

    Go values are modelled as follows: [*big.Int] as [Z], [uint64] as [Z]
    with the conversion to [int64] written out, [*big.Float] as a mantissa
    and a binary exponent with the rounding of [math/big], strings as
    [string], a [(value, error)] pair as [res], and a function that talks
    to the node as a computation in the monad [M], which records the
    requests handed to the wrapped transport and can panic. Everything the
    program does not decide itself (the node's answers, the limiter, the
    JSON and RPC decoders) is a field of [World].

    The earlier version of the client and of the handlers, which the
    sources carry as well, is embedded in [Legacy]: there a query records
    the requests it sends and the time it sleeps, and the recursion of its
    REST layer runs on fuel. [Nilable] embeds the reward query once more
    with the base fee of a block and the effective gas price of a receipt
    as the pointers they are, which may be nil. *)

From Stdlib Require Import ZArith List String Ascii Bool Lia Permutation.
Import ListNotations.
Local Open Scope string_scope.
Local Open Scope Z_scope.

(** ** Arbitrary-precision integers ([math/big.Int]) *)

Module BigInt.

(** [x.Cmp(y)]: -1, 0 or +1. *)
Definition Cmp (x y : Z) : Z :=
  match x ?= y with
  | Lt => -1
  | Eq => 0
  | Gt => 1
  end.

(** [x.BitLen()]: the length of the absolute value in bits, 0 for 0. *)
Definition BitLen (x : Z) : Z :=
  if Z.abs x =? 0 then 0 else Z.log2 (Z.abs x) + 1.

(** Digit value of a character in base 10, as [nat.scan] reads it. *)
Definition digit_of (c : ascii) : option Z :=
  let n := Z.of_nat (nat_of_ascii c) in
  if (48 <=? n) && (n <=? 57) then Some (n - 48) else None.

(** The digit loop of [nat.scan]: every character must be a decimal digit
    (in base 10 neither a separator nor a point is accepted), and
    [count] records that at least one digit was read. *)
Fixpoint scan (s : string) (acc : Z) (count : bool) : option Z :=
  match s with
  | EmptyString => if count then Some acc else None
  | String c rest =>
      match digit_of c with
      | Some d => scan rest (10 * acc + d) true
      | None => None
      end
  end.

(** [new(big.Int).SetString(s, 10)]: an optional sign, then one or more
    decimal digits, and nothing else; [None] stands for [ok == false]. *)
Definition SetString (s : string) : option Z :=
  match s with
  | String "-" rest => option_map Z.opp (scan rest 0 false)
  | String "+" rest => scan rest 0 false
  | _ => scan s 0 false
  end.

(** [int64(u)] for an unsigned 64-bit [u]: the two's complement reading. *)
Definition int64_of_uint64 (u : Z) : Z :=
  let w := u mod 2 ^ 64 in
  if w <? 2 ^ 63 then w else w - 2 ^ 64.

End BigInt.

(** ** Arbitrary-precision floats ([math/big.Float]) *)

Module BigFloat.

(** A finite float: [prec] mantissa bits, value [(-1)^neg * mant * 2^exp];
    [mant] is 0 for the value zero and has exactly [prec] bits otherwise. *)
Record Float : Type := mkFloat {
  prec : Z;
  neg : bool;
  mant : Z;
  exp : Z
}.

(** Nearest integer to [n / d], ties to the even one ([ToNearestEven]),
    for [0 <= n] and [0 < d]. *)
Definition rne_div (n d : Z) : Z :=
  let q := n / d in
  let r := n mod d in
  if 2 * r <? d then q
  else if d <? 2 * r then q + 1
  else if Z.even q then q else q + 1.

(** Numerator and denominator of [a / (b * 2^j)] as integers. *)
Definition scale_num (a j : Z) : Z := if 0 <=? j then a else a * 2 ^ (- j).
Definition scale_den (b j : Z) : Z := if 0 <=? j then b * 2 ^ j else b.

(** [a / b] rounded to [p] mantissa bits, for [0 < a] and [0 < b]:
    the pair [(m, e)] with [2^(p-1) <= m < 2^p] and value [m * 2^e].
    [lg] is the binary exponent of the quotient, [2^lg <= a / b < 2^(lg+1)]. *)
Definition round_quo (p a b : Z) : Z * Z :=
  let k := Z.log2 a - Z.log2 b in
  let lg := if scale_den b k <=? scale_num a k then k else k - 1 in
  let e := lg - (p - 1) in
  let m := rne_div (scale_num a e) (scale_den b e) in
  if m =? 2 ^ p then (2 ^ (p - 1), e + 1) else (m, e).

(** [new(big.Float).SetInt(x)]: the receiver's precision is 0, so "it is
    changed to the larger of x.BitLen() or 64" and the value is exact. *)
Definition SetInt (x : Z) : Float :=
  let bl := BigInt.BitLen x in
  let p := Z.max bl 64 in
  {| prec := p;
     neg := x <? 0;
     mant := Z.abs x * 2 ^ (p - bl);
     exp := if Z.abs x =? 0 then 0 else bl - p |}.

(** [new(big.Float).Quo(x, y)] for a finite non-zero [y] (the only divisor
    of the program is [GWEI]): the receiver's precision is 0, so "it is
    changed to the larger of x's or y's precision", and the quotient is
    rounded to it in the default mode [ToNearestEven]. *)
Definition Quo (x y : Float) : Float :=
  let p := Z.max (prec x) (prec y) in
  if mant x =? 0 then
    {| prec := p; neg := xorb (neg x) (neg y); mant := 0; exp := 0 |}
  else
    let '(m, e) := round_quo p (mant x) (mant y) in
    {| prec := p; neg := xorb (neg x) (neg y);
       mant := m; exp := e + exp x - exp y |}.

(** One decimal digit. *)
Definition digit_char (d : Z) : ascii :=
  ascii_of_nat (Z.to_nat (48 + d mod 10)).

(** The [k] low decimal digits of [n], most significant first. *)
Fixpoint digits (k : nat) (n : Z) : string :=
  match k with
  | O => ""
  | S k' => digits k' (n / 10) ++ String (digit_char n) ""
  end.

(** The decimal digits of [n >= 0] without leading zeros, ["0"] for 0;
    [fuel] bounds the number of digits. *)
Fixpoint itoa_aux (fuel : nat) (n : Z) (acc : string) : string :=
  match fuel with
  | O => acc
  | S fuel' =>
      let acc' := String (digit_char n) acc in
      if n / 10 =? 0 then acc' else itoa_aux fuel' (n / 10) acc'
  end.

Definition itoa (n : Z) : string :=
  itoa_aux (S (Z.to_nat (Z.log2 n))) n "".

(** The absolute value scaled by [10^n] and rounded to an integer, half to
    even: what [decimal.round] keeps of the exact decimal expansion. *)
Definition scaled (x : Float) (n : nat) : Z :=
  let t := 10 ^ Z.of_nat n in
  if 0 <=? exp x then mant x * 2 ^ exp x * t
  else rne_div (mant x * t) (2 ^ (- exp x)).

(** [x.Text('f', n)]: a minus sign when [x.neg], then the exact decimal
    expansion rounded to [n] fraction digits: the integer digits, and for
    [n > 0] a point and exactly [n] fraction digits ([fmtF]). *)
Definition Text (x : Float) (n : nat) : string :=
  let N := scaled x n in
  let t := 10 ^ Z.of_nat n in
  (if neg x then "-" else "") ++
  itoa (N / t) ++
  match n with
  | O => ""
  | _ => "." ++ digits n (N mod t)
  end.

End BigFloat.

(** ** Errors, results and the effects of a query *)

(** The error values of the program: its two named error types, and every
    other error ([errors.New], transport, body and decoding errors). *)
Inductive error : Type :=
| SlotMissingError (msg : string)
| FutureSlotError (msg : string)
| OtherError (msg : string).

(** [err.Error()]. *)
Definition Error (e : error) : string :=
  match e with
  | SlotMissingError msg => msg
  | FutureSlotError msg => msg
  | OtherError msg => msg
  end.

(** A Go result pair [(v, err)]: [ok v] when [err == nil]. *)
Inductive res (A : Type) : Type :=
| ok (v : A)
| err (e : error).
Arguments ok {A} v.
Arguments err {A} e.

(** A cancellation context: [Background] is [context.Background()], never
    cancelled; [Caller cancelled] is a context handed in by the caller, which
    may be cancelled while a call is blocked. *)
Inductive Context : Type :=
| Background
| Caller (cancelled : bool).

Definition Hash : Type := string.

(** What a request carries besides its URL: nothing for a REST GET, the
    method and its parameter for a JSON-RPC call. *)
Inductive Payload : Type :=
| NoBody
| RpcCall (method : string) (param : Hash).

Record Request : Type := mkRequest {
  Method : string;
  URL : string;
  Accept : option string;
  Ctx : Context;
  Body : Payload
}.

(** An HTTP response: the status code and what [io.ReadAll] makes of the
    body. *)
Record Response : Type := mkResponse {
  StatusCode : Z;
  ReadAll : res string
}.

Definition StatusOK : Z := 200.
Definition StatusBadRequest : Z := 400.
Definition StatusNotFound : Z := 404.
Definition StatusInternalServerError : Z := 500.

(** *** The data the program decodes *)

Record beaconBlockDetailResponse : Type := {
  BlockHash : string
}.

Record syncCommitteesResponse : Type := {
  Validators : list string
}.

Record validatorsDetailResponse : Type := {
  Pubkeys : list string
}.

(** [BeaconHeader]: the slot string of every entry of [data]. *)
Record BeaconHeader : Type := {
  Slots : list string
}.

(** A transaction as the execution client returns it ([types.Transaction]):
    [Gas] and [BlobGas] are unsigned 64-bit, the blob fields are zero for a
    transaction that carries no blob. *)
Record Transaction : Type := mkTransaction {
  TxHash : Hash;
  GasPrice : Z;
  Gas : Z;
  Value : Z;
  BlobGasFeeCap : Z;
  BlobGas : Z
}.

(** [tx.Cost()] of go-ethereum's [core/types], documented there as
    "Cost returns (gas * gasPrice) + (blobGas * blobGasPrice) + value". *)
Definition Cost (tx : Transaction) : Z :=
  GasPrice tx * Gas tx + BlobGasFeeCap tx * BlobGas tx + Value tx.

(** [types.Receipt] of a transaction of such a block (it carries an
    effective gas price): [ReceiptGasUsed] is unsigned 64-bit. The field
    [EffectiveGasPrice] of go-ethereum is a pointer, nil when the node
    leaves [effectiveGasPrice] out: [Nilable] below has that case. *)
Record Receipt : Type := mkReceipt {
  EffectiveGasPrice : Z;
  ReceiptGasUsed : Z
}.

(** [types.Block] of a slot above the floor (it carries a base fee):
    [GasUsed] is unsigned 64-bit. [block.BaseFee()] is a pointer, nil when
    the node leaves [baseFeePerGas] out: [Nilable] below has that case. *)
Record Block : Type := mkBlock {
  BaseFee : Z;
  GasUsed : Z;
  Transactions : list Transaction
}.

(** *** Everything outside the program

    The upstream node behind the transport, the rate limiter, and the
    decoders of the libraries. *)
Record World : Type := mkWorld {
  (** [rateLimiter.Wait(ctx)]: [None] once a token is granted, the error
      otherwise. *)
  Wait : Context -> option error;
  (** [http.NewRequest]: the error for a URL it rejects. *)
  NewRequestError : string -> option error;
  (** [transport.RoundTrip(req)] of the wrapped transport. *)
  transport : Request -> res Response;
  (** [json.Unmarshal] at the four response types. *)
  unmarshalBlockDetail : string -> res beaconBlockDetailResponse;
  unmarshalSyncCommittees : string -> res syncCommitteesResponse;
  unmarshalValidators : string -> res validatorsDetailResponse;
  unmarshalHeader : string -> res BeaconHeader;
  (** [common.HexToHash]. *)
  HexToHash : string -> Hash;
  (** What the execution client makes of the responses to its calls. *)
  decodeBlock : Response -> res Block;
  decodeReceipt : Response -> res Receipt
}.

(** *** The monad of a query

    A computation extends the list of requests handed to the wrapped
    transport (latest first) and either returns a value or panics. *)
Definition M (A : Type) : Type := list Request -> option A * list Request.

Definition ret {A} (a : A) : M A := fun t => (Some a, t).

Definition bind {A B} (m : M A) (k : A -> M B) : M B :=
  fun t =>
    match m t with
    | (Some a, t') => k a t'
    | (None, t') => (None, t')
    end.

Definition panic {A} : M A := fun t => (None, t).

Definition sent (req : Request) : M unit := fun t => (Some tt, req :: t).

Declare Scope query_scope.
Notation "x <- m ;; k" := (bind m (fun x => k))
  (at level 61, m at next level, right associativity) : query_scope.
Notation "m ;;; k" := (bind m (fun _ => k))
  (at level 61, right associativity) : query_scope.
(** [v, err := m; if err != nil { return err }]. *)
Notation "x <-? m ;; k" :=
  (bind m (fun r => match r with
                    | ok x => k
                    | err e => ret (err e)
                    end))
  (at level 61, m at next level, right associativity) : query_scope.
Local Open Scope query_scope.

(** ** The client ([client.go]) *)

Definition BlockDetailPath : string := "/eth/v2/beacon/blocks/".
Definition StatePath : string := "/eth/v1/beacon/states/".
Definition MevFeeCalculationFactor : Z := 3.
Definition BlocksAvailableAfterSlot : Z := 4700012.
Definition GWEI : Z := 1000000000.

Record Web3Client : Type := {
  BaseUrl : string
}.

(** [rateLimitTransport.RoundTrip]: wait for a token under
    [context.Background()], then hand the request to the wrapped
    transport. *)
Definition RoundTrip (w : World) (req : Request) : M (res Response) :=
  match Wait w Background with
  | Some e => ret (err e)
  | None => sent req ;;; ret (transport w req)
  end.

(** The request [sendAPIRequest] builds: a GET of the URL that accepts
    JSON, under the background context of [http.NewRequest]. *)
Definition restRequest (requestUrl : string) : Request :=
  mkRequest "GET" requestUrl (Some "application/json") Background NoBody.

(** [sendAPIRequest], with the decoder of the type of [v]. *)
Definition sendAPIRequest {A : Type} (w : World) (requestUrl requestName : string)
    (unmarshal : string -> res A) : M (res A) :=
  match NewRequestError w requestUrl with
  | Some e => ret (err e)
  | None =>
      let req := restRequest requestUrl in
      resp <-? RoundTrip w req ;;
      match ReadAll resp with
      | err e => ret (err e)
      | ok body =>
          if StatusCode resp =? StatusNotFound then
            ret (err (FutureSlotError "Slot is in the future"))
          else if StatusCode resp =? StatusBadRequest then
            ret (err (SlotMissingError "Slot is not found"))
          else
            match unmarshal body with
            | err e => ret (err e)
            | ok v => ret (ok v)
            end
      end
  end.

Definition getBlockHash (w : World) (c : Web3Client) (slotId : string)
    : M (res Hash) :=
  let endpoint := BaseUrl c ++ BlockDetailPath ++ slotId in
  blockDetail <-? sendAPIRequest w endpoint "beacon block detail"
                                 (unmarshalBlockDetail w) ;;
  ret (ok (HexToHash w (BlockHash blockDetail))).

Definition getSyncCommitteesValidatorIndexes (w : World) (c : Web3Client)
    (slotId : string) : M (res (list string)) :=
  let endpoint := BaseUrl c ++ StatePath ++ slotId ++ "/sync_committees" in
  response <-? sendAPIRequest w endpoint "sync committees"
                              (unmarshalSyncCommittees w) ;;
  ret (ok (Validators response)).

(** The loop that appends the [id=] parameters: [index] counts from 0 and
    [len] is [len(validatorIndexes)]. *)
Fixpoint idParams (index len : Z) (validatorIndexes : list string)
    (endpoint : string) : string :=
  match validatorIndexes with
  | [] => endpoint
  | validatorIndex :: rest =>
      let endpoint := if index =? 0 then endpoint ++ "?" else endpoint in
      let endpoint := endpoint ++ "id=" ++ validatorIndex in
      let endpoint := if negb (index =? len - 1) then endpoint ++ "&"
                      else endpoint in
      idParams (index + 1) len rest endpoint
  end.

Definition getPubKeysOfSyncCommittees (w : World) (c : Web3Client)
    (slotId : string) (validatorIndexes : list string)
    : M (res (list string)) :=
  let endpoint := BaseUrl c ++ StatePath ++ slotId ++ "/validators" in
  let endpoint := idParams 0 (Z.of_nat (List.length validatorIndexes))
                           validatorIndexes endpoint in
  response <-? sendAPIRequest w endpoint "receive pubkeys of validators"
                              (unmarshalValidators w) ;;
  ret (ok (Pubkeys response)).

(** [getCurrentSlotId]: [header.Data[0]] panics on an empty list. *)
Definition getCurrentSlotId (w : World) (c : Web3Client) : M Z :=
  let slotIdEndpoint := BaseUrl c ++ "/eth/v1/beacon/headers" in
  r <- sendAPIRequest w slotIdEndpoint "current slot id" (unmarshalHeader w) ;;
  match r with
  | err _ => ret 0
  | ok header =>
      match Slots header with
      | [] => panic
      | slot :: _ =>
          match BigInt.SetString slot with
          | None => ret 0
          | Some slotAsInt => ret slotAsInt
          end
      end
  end.

(** The two calls of the execution client ([w3Client]): a JSON-RPC request
    under the caller's context, sent through the same rate-limited
    transport. *)
Definition rpcRequest (c : Web3Client) (ctx : Context) (method : string)
    (param : Hash) : Request :=
  mkRequest "POST" (BaseUrl c) (Some "application/json") ctx
            (RpcCall method param).

Definition BlockByHash (w : World) (c : Web3Client) (ctx : Context)
    (hash : Hash) : M (res Block) :=
  resp <-? RoundTrip w (rpcRequest c ctx "eth_getBlockByHash" hash) ;;
  ret (decodeBlock w resp).

Definition TransactionReceipt (w : World) (c : Web3Client) (ctx : Context)
    (txHash : Hash) : M (res Receipt) :=
  resp <-? RoundTrip w (rpcRequest c ctx "eth_getTransactionReceipt" txHash) ;;
  ret (decodeReceipt w resp).

(** The cost and the price taken for one transaction, from the outcome of
    its receipt fetch. *)
Definition costAndPrice (tx : Transaction) (r : res Receipt) : Z * Z :=
  let cost := Cost tx in
  let gasPrice := GasPrice tx in
  match r with
  | ok receipt =>
      (EffectiveGasPrice receipt
         * BigInt.int64_of_uint64 (ReceiptGasUsed receipt),
       EffectiveGasPrice receipt)
  | err _ => (cost, gasPrice)
  end.

(** The body of the loop over [block.Transactions()], after the receipt
    fetch. *)
Definition rewardStep (baseFee : Z) (tx : Transaction) (r : res Receipt)
    (acc : Z * string) : Z * string :=
  let '(txCosts, status) := acc in
  let '(cost, gasPrice) := costAndPrice tx r in
  let status :=
    if BigInt.Cmp gasPrice (baseFee * MevFeeCalculationFactor) =? 1
    then "mev" else status in
  (txCosts + cost, status).

Fixpoint rewardLoop (w : World) (c : Web3Client) (ctx : Context)
    (baseFee : Z) (txs : list Transaction) (acc : Z * string)
    : M (Z * string) :=
  match txs with
  | [] => ret acc
  | tx :: rest =>
      r <- TransactionReceipt w c ctx (TxHash tx) ;;
      rewardLoop w c ctx baseFee rest (rewardStep baseFee tx r acc)
  end.

(** [rewardAsFloat.Text('f', 9)] of the quotient by [GWEI]. *)
Definition rewardAsText (reward : Z) : string :=
  let rewardAsFloat :=
    BigFloat.Quo (BigFloat.SetInt reward) (BigFloat.SetInt GWEI) in
  BigFloat.Text rewardAsFloat 9.

(** [GetBlockRewardAndStatusBySlot]: the reward string and the status. *)
Definition GetBlockRewardAndStatusBySlot (w : World) (c : Web3Client)
    (ctx : Context) (slotId : string) : M (res (string * string)) :=
  match BigInt.SetString slotId with
  | None => ret (err (OtherError "can not convert slotId to bigInt"))
  | Some slotIdAsInt =>
      if negb (BigInt.Cmp slotIdAsInt BlocksAvailableAfterSlot =? 1) then
        ret (err (SlotMissingError "Slot is missing"))
      else
        currentSlotId <- getCurrentSlotId w c ;;
        if BigInt.Cmp slotIdAsInt currentSlotId =? 1 then
          ret (err (FutureSlotError "Slot is in the future"))
        else
          blockHash <-? getBlockHash w c slotId ;;
          block <-? BlockByHash w c ctx blockHash ;;
          let burntFees :=
            BaseFee block * BigInt.int64_of_uint64 (GasUsed block) in
          totals <- rewardLoop w c ctx (BaseFee block) (Transactions block)
                               (0, "vanilla") ;;
          let '(txCosts, status) := totals in
          let reward := txCosts - burntFees in
          ret (ok (rewardAsText reward, status))
  end.

Definition GetSyncCommitteeDuties (w : World) (c : Web3Client)
    (slotId : string) : M (res (list string)) :=
  validatorIndexes <-? getSyncCommitteesValidatorIndexes w c slotId ;;
  pubKeys <-? getPubKeysOfSyncCommittees w c slotId validatorIndexes ;;
  ret (ok pubKeys).

(** ** The handlers ([main.go]) *)

(** The value handed to [c.JSON]: [nil], a [gin.H] of strings, or a list of
    strings. *)
Inductive JSON : Type :=
| JNil
| JObject (fields : list (string * string))
| JStrings (items : list string).

Record Reply : Type := mkReply {
  Code : Z;
  Data : JSON
}.

Definition GetBlockRewardHandler (w : World) (client : Web3Client)
    (c : Context) (slotId : string) : M Reply :=
  r <- GetBlockRewardAndStatusBySlot w client c slotId ;;
  match r with
  | err e =>
      match e with
      | SlotMissingError _ =>
          ret (mkReply StatusNotFound (JObject [("error", Error e)]))
      | FutureSlotError _ =>
          ret (mkReply StatusBadRequest (JObject [("error", Error e)]))
      | OtherError _ => ret (mkReply StatusInternalServerError JNil)
      end
  | ok (reward, status) =>
      ret (mkReply StatusOK (JObject [("reward", reward); ("status", status)]))
  end.

Definition GetSyncDutiesHandler (w : World) (client : Web3Client)
    (c : Context) (slotId : string) : M Reply :=
  r <- GetSyncCommitteeDuties w client slotId ;;
  match r with
  | err e =>
      match e with
      | SlotMissingError _ =>
          ret (mkReply StatusNotFound (JObject [("error", Error e)]))
      | FutureSlotError _ =>
          ret (mkReply StatusBadRequest (JObject [("error", Error e)]))
      | OtherError _ => ret (mkReply StatusInternalServerError JNil)
      end
  | ok pubKeys => ret (mkReply StatusOK (JStrings pubKeys))
  end.

(** ** Sample worlds *)

Module Sample.

Definition client : Web3Client := {| BaseUrl := "http://node" |}.

(** A receipt table by transaction hash; a hash outside it has no
    receipt. *)
Definition receipts := list (Hash * Receipt).

Fixpoint lookup (h : Hash) (rs : receipts) : res Receipt :=
  match rs with
  | [] => err (OtherError "not found")
  | (h', r) :: rest => if String.eqb h h' then ok r else lookup h rest
  end.

(** The wrapped transport refuses a request whose context is cancelled and
    answers every other request with [status], echoing the parameter of a
    JSON-RPC call in the body. *)
Definition echo (status : Z) (req : Request) : res Response :=
  match Ctx req with
  | Caller true => err (OtherError "context canceled")
  | _ =>
      ok (mkResponse status
            (ok match Body req with
                | NoBody => URL req
                | RpcCall _ param => param
                end))
  end.

(** A node whose head is at [head], that serves [block] for every slot
    and the receipts of [rs], answering every REST request with
    [status]; the limiter and the transport honour the context they are
    given. *)
Definition world (status : Z) (head : list string) (block : Block)
    (rs : receipts) : World :=
  {| Wait := fun ctx =>
       match ctx with
       | Caller true => Some (OtherError "context canceled")
       | _ => None
       end;
     NewRequestError := fun _ => None;
     transport := echo status;
     unmarshalBlockDetail := fun _ => ok {| BlockHash := "0xb10c" |};
     unmarshalSyncCommittees := fun _ => ok {| Validators := ["1"; "2"] |};
     unmarshalValidators := fun _ => ok {| Pubkeys := ["0xaa"; "0xbb"] |};
     unmarshalHeader := fun _ => ok {| Slots := head |};
     HexToHash := fun s => s;
     decodeBlock := fun _ => ok block;
     decodeReceipt := fun resp =>
       match ReadAll resp with
       | ok h => lookup h rs
       | err e => err e
       end |}.

Definition tx1 : Transaction := mkTransaction "0x01" 10 21000 0 0 0.
Definition tx2 : Transaction := mkTransaction "0x02" 50 30000 7 0 0.
Definition rs1 : receipts := [("0x01", mkReceipt 12 21000)].

(** A block of two transactions; only the first has a receipt. *)
Definition block1 : Block := mkBlock 10 0 [tx1; tx2].
Definition w1 : World := world 200 ["5000000"] block1 rs1.

(** The same block with its transactions in the other order. *)
Definition block1' : Block := mkBlock 10 0 [tx2; tx1].
Definition w1' : World := world 200 ["5000000"] block1' rs1.

(** A block without transactions. *)
Definition blockEmpty : Block := mkBlock 7 30000 [].
Definition wEmpty : World := world 200 ["5000000"] blockEmpty [].


(** A block without transactions and a very large burnt fee. *)
Definition blockEmptyBig : Block := mkBlock 818089008761905 21000 [].
Definition wEmptyBig : World := world 200 ["5000000"] blockEmptyBig [].

(** The node answers every REST request with 400, or with 404. *)
Definition wBadRequest : World := world 400 ["5000000"] block1 rs1.
Definition wNotFound : World := world 404 ["5000000"] block1 rs1.

(** The head response decodes to an empty data list. *)
Definition wNoHead : World := world 200 [] block1 rs1.

End Sample.

(** ** Reading the reward query in two halves *)

(** The steps of [GetBlockRewardAndStatusBySlot] up to the block fetch. *)
Definition resolveBlock (w : World) (c : Web3Client) (ctx : Context)
    (slotId : string) : M (res Block) :=
  match BigInt.SetString slotId with
  | None => ret (err (OtherError "can not convert slotId to bigInt"))
  | Some slotIdAsInt =>
      if negb (BigInt.Cmp slotIdAsInt BlocksAvailableAfterSlot =? 1) then
        ret (err (SlotMissingError "Slot is missing"))
      else
        currentSlotId <- getCurrentSlotId w c ;;
        if BigInt.Cmp slotIdAsInt currentSlotId =? 1 then
          ret (err (FutureSlotError "Slot is in the future"))
        else
          blockHash <-? getBlockHash w c slotId ;;
          BlockByHash w c ctx blockHash
  end.

(** The outcome of the receipt fetch of a transaction hash: it depends on
    the world and the request only. *)
Definition receiptOutcome (w : World) (c : Web3Client) (ctx : Context)
    (txHash : Hash) : res Receipt :=
  match Wait w Background with
  | Some e => err e
  | None =>
      match transport w (rpcRequest c ctx "eth_getTransactionReceipt" txHash) with
      | ok resp => decodeReceipt w resp
      | err e => err e
      end
  end.

(** The cost and the price the loop takes for a transaction. *)
Definition costOf (w : World) (c : Web3Client) (ctx : Context)
    (tx : Transaction) : Z :=
  fst (costAndPrice tx (receiptOutcome w c ctx (TxHash tx))).

Definition priceOf (w : World) (c : Web3Client) (ctx : Context)
    (tx : Transaction) : Z :=
  snd (costAndPrice tx (receiptOutcome w c ctx (TxHash tx))).

(** The sum of the costs of a transaction sequence. *)
Definition totalCost (w : World) (c : Web3Client) (ctx : Context)
    (txs : list Transaction) : Z :=
  fold_right (fun tx s => costOf w c ctx tx + s) 0 txs.

(** Whether a price strictly exceeds three times the base fee. *)
Definition exceeds (baseFee price : Z) : bool :=
  baseFee * MevFeeCalculationFactor <? price.

(** The loop as a fold over the receipt outcomes. *)
Definition totals (w : World) (c : Web3Client) (ctx : Context)
    (baseFee : Z) (txs : list Transaction) (acc : Z * string) : Z * string :=
  fold_left
    (fun acc tx => rewardStep baseFee tx (receiptOutcome w c ctx (TxHash tx)) acc)
    txs acc.

(** The net reward of a block in native units, as the program computes
    it. *)
Definition netReward (w : World) (c : Web3Client) (ctx : Context)
    (block : Block) : Z :=
  totalCost w c ctx (Transactions block)
  - BaseFee block * BigInt.int64_of_uint64 (GasUsed block).

(** [r / 10^9] written out exactly: sign, integer digits, point, nine
    fraction digits. *)
Definition fixed9 (r : Z) : string :=
  (if r <? 0 then "-" else "") ++
  BigFloat.itoa (Z.abs r / 10 ^ 9) ++ "." ++
  BigFloat.digits 9 (Z.abs r mod 10 ^ 9).

Definition isDigit (c : ascii) : bool :=
  let n := Z.of_nat (nat_of_ascii c) in (48 <=? n) && (n <=? 57).

Fixpoint allDigits (s : string) : bool :=
  match s with
  | EmptyString => true
  | String c rest => isDigit c && allDigits rest
  end.

(** [s] is one or more digits, a point, and exactly [n] digits. *)
Fixpoint unsignedFixed (n : nat) (seen : bool) (s : string) : bool :=
  match s with
  | EmptyString => false
  | String c rest =>
      if Ascii.eqb c "." then
        seen && (String.length rest =? n)%nat && allDigits rest
      else isDigit c && unsignedFixed n true rest
  end.

(** [s] is an optional minus sign followed by a number with exactly [n]
    digits after the point. *)
Definition isFixed (n : nat) (s : string) : bool :=
  match s with
  | String "-" rest => unsignedFixed n false rest
  | _ => unsignedFixed n false s
  end.

Definition isNegative (s : string) : bool :=
  match s with
  | String "-" _ => true
  | _ => false
  end.

(** One or more decimal digits. *)
Definition isNonNegativeLiteral (s : string) : bool :=
  match s with
  | EmptyString => false
  | _ => allDigits s
  end.

(** An optional sign, then one or more decimal digits. *)
Definition isIntegerLiteral (s : string) : bool :=
  match s with
  | String "-" rest => isNonNegativeLiteral rest
  | String "+" rest => isNonNegativeLiteral rest
  | _ => isNonNegativeLiteral s
  end.

(** ** Further definitions for the properties *)

(** The node serves the GET of a URL with [body]: the URL is accepted, the
    limiter lets the request through, and the response has a readable body
    and a status other than 400 and 404. *)
Definition serves (w : World) (requestUrl body : string) : Prop :=
  NewRequestError w requestUrl = None
  /\ Wait w Background = None
  /\ exists resp,
       transport w (restRequest requestUrl) = ok resp
       /\ ReadAll resp = ok body
       /\ StatusCode resp <> StatusNotFound
       /\ StatusCode resp <> StatusBadRequest.

(** [id=] parameters joined by [&]. *)
Definition joinIds (validatorIndexes : list string) : string :=
  String.concat "&" (map (fun validatorIndex => "id=" ++ validatorIndex)
                         validatorIndexes).

(** The query string of the validators request: empty for no index. *)
Definition idQuery (validatorIndexes : list string) : string :=
  match validatorIndexes with
  | [] => ""
  | _ => "?" ++ joinIds validatorIndexes
  end.

(** The receipt request of a transaction. *)
Definition receiptRequest (c : Web3Client) (ctx : Context) (tx : Transaction)
    : Request :=
  rpcRequest c ctx "eth_getTransactionReceipt" (TxHash tx).

(** A string without its points. *)
Fixpoint dropPoint (s : string) : string :=
  match s with
  | EmptyString => ""
  | String c rest =>
      if Ascii.eqb c "." then dropPoint rest else String c (dropPoint rest)
  end.

(** Reading a fixed-point text as the integer of its digits: the value in
    units of the last digit. *)
Definition readFixed (s : string) : option Z := BigInt.SetString (dropPoint s).

(** The priority fees of a list of receipts: what each pays per unit of gas
    above the base fee, times the gas it used. *)
Definition tips (baseFee : Z) (receipts : list Receipt) : Z :=
  fold_right
    (fun receipt s =>
       (EffectiveGasPrice receipt - baseFee) * ReceiptGasUsed receipt + s)
    0 receipts.

(** The gas used by a list of receipts. *)
Definition gasOf (receipts : list Receipt) : Z :=
  fold_right (fun receipt s => ReceiptGasUsed receipt + s) 0 receipts.

(** *** More sample worlds *)

Module Scenario.

(** The wrapped transport answers a request with the status chosen for its
    URL, echoing the parameter of a JSON-RPC call in the body. *)
Definition echoBy (status : string -> Z) (req : Request) : res Response :=
  ok (mkResponse (status (URL req))
        (ok match Body req with
            | NoBody => URL req
            | RpcCall _ param => param
            end)).

(** The sample node, answering the head request with 200 and every other
    request with [status]. *)
Definition worldBy (status : Z) : World :=
  {| Wait := Wait Sample.w1;
     NewRequestError := NewRequestError Sample.w1;
     transport :=
       echoBy (fun url =>
                 if String.eqb url "http://node/eth/v1/beacon/headers"
                 then 200 else status);
     unmarshalBlockDetail := unmarshalBlockDetail Sample.w1;
     unmarshalSyncCommittees := unmarshalSyncCommittees Sample.w1;
     unmarshalValidators := unmarshalValidators Sample.w1;
     unmarshalHeader := unmarshalHeader Sample.w1;
     HexToHash := HexToHash Sample.w1;
     decodeBlock := decodeBlock Sample.w1;
     decodeReceipt := decodeReceipt Sample.w1 |}.

(** The head response carries a slot that is no number. *)
Definition wBadHead : World :=
  Sample.world 200 ["head"] Sample.block1 Sample.rs1.

(** The limiter refuses every wait, as one of rate 0 does once its burst is
    spent. *)
Definition wLimited : World :=
  {| Wait := fun _ => Some (OtherError "rate: Wait(n=1) exceeds limiter's burst 0");
     NewRequestError := NewRequestError Sample.w1;
     transport := transport Sample.w1;
     unmarshalBlockDetail := unmarshalBlockDetail Sample.w1;
     unmarshalSyncCommittees := unmarshalSyncCommittees Sample.w1;
     unmarshalValidators := unmarshalValidators Sample.w1;
     unmarshalHeader := unmarshalHeader Sample.w1;
     HexToHash := HexToHash Sample.w1;
     decodeBlock := decodeBlock Sample.w1;
     decodeReceipt := decodeReceipt Sample.w1 |}.

(** Both transactions of the block have a receipt, and the gas used by the
    block is the gas of its receipts. *)
Definition rsFull : Sample.receipts :=
  [("0x01", mkReceipt 12 21000); ("0x02", mkReceipt 45 30000)].
Definition blockFull : Block := mkBlock 10 51000 [Sample.tx1; Sample.tx2].
Definition wFull : World := Sample.world 200 ["5000000"] blockFull rsFull.

End Scenario.

(** ** The earlier client and handlers

    The sources also carry the earlier version of the client (after the
    tests in [client_test.go]) and of the handlers (at the head of
    [main.go]): no rate limiter, no slot validation and no error types, but
    a REST layer that retries a request the node answers with 429. *)

Module Legacy.

(** What a query does besides computing: it hands requests to the HTTP
    client and it sleeps, for a [time.Duration] in nanoseconds. *)
Inductive Event : Type :=
| Sent (req : Request)
| Slept (d : Z).

(** A response together with [resp.Header.Get("Retry-After")], the empty
    string when the header is absent. *)
Record Answer : Type := mkAnswer {
  response : Response;
  RetryAfter : string
}.

(** The node behind [http.Client.Do] and behind the client of
    [ethclient.Dial]: its answer may depend on what happened before. The
    decoders are those of [base]. *)
Record Node : Type := mkNode {
  base : World;
  Do : list Event -> Request -> res Answer;
  DialError : string -> option error
}.

(** A computation extends the list of events (latest first); [None] stands
    for a call that has not returned within its fuel. *)
Definition L (A : Type) : Type := list Event -> option A * list Event.

Definition ret {A} (a : A) : L A := fun t => (Some a, t).

Definition bind {A B} (m : L A) (k : A -> L B) : L B :=
  fun t =>
    match m t with
    | (Some a, t') => k a t'
    | (None, t') => (None, t')
    end.

(** Handing a request to the node. *)
Definition send (n : Node) (req : Request) : L (res Answer) :=
  fun t => (Some (Do n t req), Sent req :: t).

(** [time.Sleep(d)]. *)
Definition sleep (d : Z) : L unit := fun t => (Some tt, Slept d :: t).

Definition StatusTooManyRequests : Z := 429.

(** [time.Second] as a [time.Duration]. *)
Definition Second : Z := 1000000000.

(** The value of a signed 64-bit product or conversion: two's complement
    wrap-around. *)
Definition int64_wrap (x : Z) : Z := (x + 2 ^ 63) mod 2 ^ 64 - 2 ^ 63.

(** [strconv.Atoi] with a 64-bit [int]: an optional sign and decimal
    digits, within the range of [int]. The messages of its errors also
    quote the input, which is left out here. *)
Definition Atoi (s : string) : res Z :=
  match BigInt.SetString s with
  | None => err (OtherError "strconv.Atoi: invalid syntax")
  | Some i =>
      if (- 2 ^ 63 <=? i) && (i <? 2 ^ 63) then ok i
      else err (OtherError "strconv.Atoi: value out of range")
  end.

(** [sendAPIRequest]: the recursive call after a 429 consumes one unit of
    fuel. *)
Fixpoint sendAPIRequest {A : Type} (fuel : nat) (n : Node)
    (requestUrl requestName : string) (unmarshal : string -> res A)
    : L (res A) :=
  match fuel with
  | O => fun t => (None, t)
  | S fuel =>
      match NewRequestError (base n) requestUrl with
      | Some e => ret (err e)
      | None =>
          let req := restRequest requestUrl in
          bind (send n req) (fun r =>
          match r with
          | err e => ret (err e)
          | ok resp =>
              if StatusCode (response resp) =? StatusTooManyRequests then
                match Atoi (RetryAfter resp) with
                | err e => ret (err e)
                | ok retryAfter =>
                    bind (sleep (int64_wrap (retryAfter * Second))) (fun _ =>
                    sendAPIRequest fuel n requestUrl requestName unmarshal)
                end
              else
                match ReadAll (response resp) with
                | err e => ret (err e)
                | ok body =>
                    match unmarshal body with
                    | err e => ret (err e)
                    | ok v => ret (ok v)
                    end
                end
          end)
      end
  end.

Definition getBlockHash (fuel : nat) (n : Node) (c : Web3Client)
    (slotId : string) : L (res Hash) :=
  let endpoint := BaseUrl c ++ BlockDetailPath ++ slotId in
  bind (sendAPIRequest fuel n endpoint "beacon block detail"
          (unmarshalBlockDetail (base n))) (fun r =>
  match r with
  | err e => ret (err e)
  | ok blockDetail => ret (ok (HexToHash (base n) (BlockHash blockDetail)))
  end).

Definition getSyncCommitteesValidatorIndexes (fuel : nat) (n : Node)
    (c : Web3Client) (slotId : string) : L (res (list string)) :=
  let endpoint := BaseUrl c ++ StatePath ++ slotId ++ "/sync_committees" in
  bind (sendAPIRequest fuel n endpoint "sync committees"
          (unmarshalSyncCommittees (base n))) (fun r =>
  match r with
  | err e => ret (err e)
  | ok response => ret (ok (Validators response))
  end).

Definition getPubKeysOfSyncCommittees (fuel : nat) (n : Node)
    (c : Web3Client) (slotId : string) (validatorIndexes : list string)
    : L (res (list string)) :=
  let endpoint := BaseUrl c ++ StatePath ++ slotId ++ "/validators" in
  let endpoint := idParams 0 (Z.of_nat (List.length validatorIndexes))
                           validatorIndexes endpoint in
  bind (sendAPIRequest fuel n endpoint "receive pubkeys of validators"
          (unmarshalValidators (base n))) (fun r =>
  match r with
  | err e => ret (err e)
  | ok response => ret (ok (Pubkeys response))
  end).

(** The two calls of the execution client that [ethclient.Dial] returns. *)
Definition BlockByHash (n : Node) (c : Web3Client) (ctx : Context)
    (hash : Hash) : L (res Block) :=
  bind (send n (rpcRequest c ctx "eth_getBlockByHash" hash)) (fun r =>
  match r with
  | err e => ret (err e)
  | ok resp => ret (decodeBlock (base n) (response resp))
  end).

Definition TransactionReceipt (n : Node) (c : Web3Client) (ctx : Context)
    (txHash : Hash) : L (res Receipt) :=
  bind (send n (rpcRequest c ctx "eth_getTransactionReceipt" txHash)) (fun r =>
  match r with
  | err e => ret (err e)
  | ok resp => ret (decodeReceipt (base n) (response resp))
  end).

(** The loop over the transactions: its body is that of the current
    version. *)
Fixpoint rewardLoop (n : Node) (c : Web3Client) (ctx : Context)
    (baseFee : Z) (txs : list Transaction) (acc : Z * string)
    : L (Z * string) :=
  match txs with
  | [] => ret acc
  | tx :: rest =>
      bind (TransactionReceipt n c ctx (TxHash tx)) (fun r =>
      rewardLoop n c ctx baseFee rest (rewardStep baseFee tx r acc))
  end.

(** [GetBlockRewardAndStatusBySlot]: the reward, the status and the
    error. *)
Definition GetBlockRewardAndStatusBySlot (fuel : nat) (n : Node)
    (c : Web3Client) (ctx : Context) (slotId : string)
    : L (string * string * option error) :=
  bind (getBlockHash fuel n c slotId) (fun r =>
  match r with
  | err e => ret ("nil", "", Some e)
  | ok blockHash =>
      match DialError n (BaseUrl c) with
      | Some e => ret ("nil", "", Some e)
      | None =>
          bind (BlockByHash n c ctx blockHash) (fun r =>
          match r with
          | err e => ret ("nil", "", Some e)
          | ok block =>
              let burntFees :=
                BaseFee block * BigInt.int64_of_uint64 (GasUsed block) in
              bind (rewardLoop n c ctx (BaseFee block) (Transactions block)
                      (0, "vanilla")) (fun totals =>
              let '(txCosts, status) := totals in
              let reward := txCosts - burntFees in
              ret (rewardAsText reward, status, None))
          end)
      end
  end).

Definition GetSyncCommitteeDuties (fuel : nat) (n : Node) (c : Web3Client)
    (slotId : string) : L (res (list string)) :=
  bind (getSyncCommitteesValidatorIndexes fuel n c slotId) (fun r =>
  match r with
  | err e => ret (err e)
  | ok validatorIndexes =>
      bind (getPubKeysOfSyncCommittees fuel n c slotId validatorIndexes)
        (fun r =>
      match r with
      | err e => ret (err e)
      | ok pubKeys => ret (ok pubKeys)
      end)
  end).

(** The handlers of the earlier [main.go]. *)
Definition GetBlockRewardHandler (fuel : nat) (n : Node) (client : Web3Client)
    (c : Context) (slotId : string) : L Reply :=
  bind (GetBlockRewardAndStatusBySlot fuel n client c slotId) (fun r =>
  let '(reward, status, e) := r in
  match e with
  | Some _ => ret (mkReply StatusInternalServerError JNil)
  | None =>
      ret (mkReply StatusOK (JObject [("reward", reward); ("status", status)]))
  end).

Definition GetSyncDutiesHandler (fuel : nat) (n : Node) (client : Web3Client)
    (c : Context) (slotId : string) : L Reply :=
  bind (GetSyncCommitteeDuties fuel n client slotId) (fun r =>
  match r with
  | err _ => ret (mkReply StatusInternalServerError JNil)
  | ok pubKeys => ret (mkReply StatusOK (JStrings pubKeys))
  end).

(** The events of a request retried after each of the delays [ds] (in
    seconds), on top of [t]. *)
Fixpoint retried (req : Request) (ds : list Z) (t : list Event) : list Event :=
  match ds with
  | [] => t
  | d :: rest => retried req rest (Slept (int64_wrap (d * Second)) :: Sent req :: t)
  end.

(** The node answers [req] with 429 and the delays [ds], one after the
    other, from the history [t] on. *)
Fixpoint throttled (n : Node) (req : Request) (ds : list Z) (t : list Event)
    : Prop :=
  match ds with
  | [] => True
  | d :: rest =>
      (exists resp,
         Do n t req = ok resp
         /\ StatusCode (response resp) = StatusTooManyRequests
         /\ Atoi (RetryAfter resp) = ok d)
      /\ throttled n req rest (Slept (int64_wrap (d * Second)) :: Sent req :: t)
  end.

(** The time slept in a list of events, in nanoseconds: [time.Sleep]
    returns at once for a duration that is not positive. *)
Fixpoint slept (t : list Event) : Z :=
  match t with
  | [] => 0
  | Slept d :: rest => Z.max 0 d + slept rest
  | Sent _ :: rest => slept rest
  end.

(** The requests of a list of events. *)
Fixpoint requests (t : list Event) : list Request :=
  match t with
  | [] => []
  | Sent req :: rest => req :: requests rest
  | Slept _ :: rest => requests rest
  end.

(** The node [n] is the node of the world [w]: the same decoders, and at
    any time the answer the wrapped transport of [w] gives. *)
Definition mirrors (n : Node) (w : World) : Prop :=
  base n = w
  /\ forall t req,
       match Do n t req with
       | ok resp => transport w req = ok (response resp)
       | err e => transport w req = err e
       end.

(** A computation only adds events. *)
Definition extends {A} (m : L A) : Prop :=
  forall t, exists more, snd (m t) = (more ++ t)%list.

End Legacy.

(** *** Sample nodes of the earlier client *)

Module LegacySample.

(** The node of a world: it answers as the wrapped transport does, with no
    Retry-After header, and dialling succeeds. *)
Definition nodeOf (w : World) : Legacy.Node :=
  Legacy.mkNode w
    (fun _ req =>
       match transport w req with
       | ok resp => ok (Legacy.mkAnswer resp "")
       | err e => err e
       end)
    (fun _ => None).

(** The node of a world that first answers [k] requests with 429 and the
    Retry-After header [delay]. *)
Definition throttling (k : nat) (delay : string) (w : World) : Legacy.Node :=
  Legacy.mkNode w
    (fun t req =>
       if (List.length (Legacy.requests t) <? k)%nat
       then ok (Legacy.mkAnswer (mkResponse 429 (ok "")) delay)
       else Legacy.Do (nodeOf w) t req)
    (fun _ => None).

(** A node that answers every request with 429 and the Retry-After header
    [delay]. *)
Definition busy (delay : string) (w : World) : Legacy.Node :=
  Legacy.mkNode w
    (fun _ _ => ok (Legacy.mkAnswer (mkResponse 429 (ok "")) delay))
    (fun _ => None).

End LegacySample.

(** *** The limiter and the contexts of the requests *)

(** The world with another limiter. *)
Definition withWait (w : World) (wait : Context -> option error) : World :=
  {| Wait := wait;
     NewRequestError := NewRequestError w;
     transport := transport w;
     unmarshalBlockDetail := unmarshalBlockDetail w;
     unmarshalSyncCommittees := unmarshalSyncCommittees w;
     unmarshalValidators := unmarshalValidators w;
     unmarshalHeader := unmarshalHeader w;
     HexToHash := HexToHash w;
     decodeBlock := decodeBlock w;
     decodeReceipt := decodeReceipt w |}.

(** What a request of a query is: a REST request, which goes out under the
    background context, or a block fetch or a receipt fetch of the
    execution client, which goes out under the context [ctx]. *)
Definition restOrCall (c : Web3Client) (ctx : Context) (req : Request) : Prop :=
  (exists requestUrl, req = restRequest requestUrl /\ Ctx req = Background)
  \/ (exists hash,
        req = rpcRequest c ctx "eth_getBlockByHash" hash /\ Ctx req = ctx)
  \/ (exists txHash,
        req = rpcRequest c ctx "eth_getTransactionReceipt" txHash
        /\ Ctx req = ctx).

(** A computation only adds requests, each of them satisfying [P]. *)
Definition adds {A} (P : Request -> Prop) (m : M A) : Prop :=
  forall t, exists sentReqs,
    snd (m t) = (sentReqs ++ t)%list /\ Forall P sentReqs.

(** ** Pointers that may be nil

    [Block.BaseFee()] and [Receipt.EffectiveGasPrice] are [*big.Int]: the
    execution client leaves them nil when the answer of the node has no
    [baseFeePerGas] (a block from before the base fee) or no
    [effectiveGasPrice]. [Block] and [Receipt] above are the blocks and the
    receipts that carry both. Here the reward query is embedded once more
    with the two pointers as options: [Mul] and [Cmp] on a nil [*big.Int]
    panic. *)

Module Nilable.

(** A receipt and a block as the execution client decodes them. *)
Record RawReceipt : Type := mkRawReceipt {
  RawEffectiveGasPrice : option Z;
  RawReceiptGasUsed : Z
}.

Record RawBlock : Type := mkRawBlock {
  RawBaseFee : option Z;
  RawGasUsed : Z;
  RawTransactions : list Transaction
}.

(** What the execution client makes of the responses to its two calls. *)
Record Decoders : Type := mkDecoders {
  decodeRawBlock : Response -> res RawBlock;
  decodeRawReceipt : Response -> res RawReceipt
}.

(** [new(big.Int).Mul(x, y)] for an [x] that may be nil. *)
Definition Mul (x : option Z) (y : Z) : M Z :=
  match x with
  | Some x => ret (x * y)
  | None => panic
  end.

(** [x.Cmp(y)] for an [x] that may be nil. *)
Definition Cmp (x : option Z) (y : Z) : M Z :=
  match x with
  | Some x => ret (BigInt.Cmp x y)
  | None => panic
  end.

Definition BlockByHash (w : World) (d : Decoders) (c : Web3Client)
    (ctx : Context) (hash : Hash) : M (res RawBlock) :=
  resp <-? RoundTrip w (rpcRequest c ctx "eth_getBlockByHash" hash) ;;
  ret (decodeRawBlock d resp).

Definition TransactionReceipt (w : World) (d : Decoders) (c : Web3Client)
    (ctx : Context) (txHash : Hash) : M (res RawReceipt) :=
  resp <-? RoundTrip w (rpcRequest c ctx "eth_getTransactionReceipt" txHash) ;;
  ret (decodeRawReceipt d resp).

(** The body of the loop over [block.Transactions()], after the receipt
    fetch. *)
Definition rewardBody (baseFee : option Z) (tx : Transaction)
    (r : res RawReceipt) (acc : Z * string) : M (Z * string) :=
  let '(txCosts, status) := acc in
  let cost := Cost tx in
  let gasPrice := Some (GasPrice tx) in
  taken <-
    match r with
    | ok receipt =>
        cost <- Mul (RawEffectiveGasPrice receipt)
                    (BigInt.int64_of_uint64 (RawReceiptGasUsed receipt)) ;;
        ret (cost, RawEffectiveGasPrice receipt)
    | err _ => ret (cost, gasPrice)
    end ;;
  let '(cost, gasPrice) := taken in
  threshold <- Mul baseFee MevFeeCalculationFactor ;;
  cmp <- Cmp gasPrice threshold ;;
  let status := if cmp =? 1 then "mev" else status in
  ret (txCosts + cost, status).

Fixpoint rewardLoop (w : World) (d : Decoders) (c : Web3Client)
    (ctx : Context) (baseFee : option Z) (txs : list Transaction)
    (acc : Z * string) : M (Z * string) :=
  match txs with
  | [] => ret acc
  | tx :: rest =>
      r <- TransactionReceipt w d c ctx (TxHash tx) ;;
      acc <- rewardBody baseFee tx r acc ;;
      rewardLoop w d c ctx baseFee rest acc
  end.

(** [GetBlockRewardAndStatusBySlot]. *)
Definition GetBlockRewardAndStatusBySlot (w : World) (d : Decoders)
    (c : Web3Client) (ctx : Context) (slotId : string)
    : M (res (string * string)) :=
  match BigInt.SetString slotId with
  | None => ret (err (OtherError "can not convert slotId to bigInt"))
  | Some slotIdAsInt =>
      if negb (BigInt.Cmp slotIdAsInt BlocksAvailableAfterSlot =? 1) then
        ret (err (SlotMissingError "Slot is missing"))
      else
        currentSlotId <- getCurrentSlotId w c ;;
        if BigInt.Cmp slotIdAsInt currentSlotId =? 1 then
          ret (err (FutureSlotError "Slot is in the future"))
        else
          blockHash <-? getBlockHash w c slotId ;;
          block <-? BlockByHash w d c ctx blockHash ;;
          burntFees <- Mul (RawBaseFee block)
                           (BigInt.int64_of_uint64 (RawGasUsed block)) ;;
          totals <- rewardLoop w d c ctx (RawBaseFee block)
                               (RawTransactions block) (0, "vanilla") ;;
          let '(txCosts, status) := totals in
          let reward := txCosts - burntFees in
          ret (ok (rewardAsText reward, status))
  end.

(** The steps of the query up to the block fetch. *)
Definition resolveBlock (w : World) (d : Decoders) (c : Web3Client)
    (ctx : Context) (slotId : string) : M (res RawBlock) :=
  match BigInt.SetString slotId with
  | None => ret (err (OtherError "can not convert slotId to bigInt"))
  | Some slotIdAsInt =>
      if negb (BigInt.Cmp slotIdAsInt BlocksAvailableAfterSlot =? 1) then
        ret (err (SlotMissingError "Slot is missing"))
      else
        currentSlotId <- getCurrentSlotId w c ;;
        if BigInt.Cmp slotIdAsInt currentSlotId =? 1 then
          ret (err (FutureSlotError "Slot is in the future"))
        else
          blockHash <-? getBlockHash w c slotId ;;
          BlockByHash w d c ctx blockHash
  end.

(** The outcome of the receipt fetch of a transaction hash. *)
Definition receiptOutcome (w : World) (d : Decoders) (c : Web3Client)
    (ctx : Context) (txHash : Hash) : res RawReceipt :=
  match Wait w Background with
  | Some e => err e
  | None =>
      match transport w (rpcRequest c ctx "eth_getTransactionReceipt" txHash) with
      | ok resp => decodeRawReceipt d resp
      | err e => err e
      end
  end.


(** A block and a receipt that carry their pointers. *)
Definition ofBlock (block : Block) : RawBlock :=
  mkRawBlock (Some (BaseFee block)) (GasUsed block) (Transactions block).

Definition ofReceipt (receipt : Receipt) : RawReceipt :=
  mkRawReceipt (Some (EffectiveGasPrice receipt)) (ReceiptGasUsed receipt).

(** The decoders of a world whose blocks and receipts carry both
    pointers. *)
Definition present (w : World) : Decoders :=
  mkDecoders
    (fun resp =>
       match decodeBlock w resp with
       | ok block => ok (ofBlock block)
       | err e => err e
       end)
    (fun resp =>
       match decodeReceipt w resp with
       | ok receipt => ok (ofReceipt receipt)
       | err e => err e
       end).



End Nilable.

(** The node answers the GET of a URL with a status code and a readable
    body, and the limiter lets the request through. *)
Definition answered (w : World) (requestUrl : string) (status : Z) : Prop :=
  NewRequestError w requestUrl = None
  /\ Wait w Background = None
  /\ exists resp body,
       transport w (restRequest requestUrl) = ok resp
       /\ ReadAll resp = ok body
       /\ StatusCode resp = status.

(** ** Properties *)

(** *** Comparison and the monad *)

Lemma Cmp_gt (x y : Z) : (BigInt.Cmp x y =? 1) = (y <? x).
Proof.
  unfold BigInt.Cmp.
  destruct (Z.compare_spec x y); symmetry; simpl.
  - apply Z.ltb_ge. lia.
  - apply Z.ltb_ge. lia.
  - apply Z.ltb_lt. lia.
Qed.

Lemma bind_run {A B} (m : M A) (k : A -> M B) t a t' :
  m t = (Some a, t') -> bind m k t = k a t'.
Proof. unfold bind. now intros ->. Qed.

(** *** Rounding *)

Module BigFloatFacts.
Import BigFloat.

(** The rounded quotient is within half a unit of the exact one. *)
Lemma rne_div_spec (n d : Z) :
  0 < d -> - d <= 2 * (rne_div n d * d - n) <= d.
Proof.
  intros Hd. unfold rne_div.
  pose proof (Z.div_mod n d ltac:(lia)) as E.
  pose proof (Z.mod_pos_bound n d Hd) as B.
  set (q := n / d) in *. set (r := n mod d) in *.
  destruct (Z.ltb_spec (2 * r) d); [nia|].
  destruct (Z.ltb_spec d (2 * r)); [nia|].
  destruct (Z.even q); nia.
Qed.

(** An integer strictly within half a unit of [n / d] is the rounded
    quotient. *)
Lemma rne_div_unique (n d a : Z) :
  0 < d -> - d < 2 * (n - a * d) < d -> rne_div n d = a.
Proof.
  intros Hd Ha. unfold rne_div.
  pose proof (Z.div_mod n d ltac:(lia)) as E.
  pose proof (Z.mod_pos_bound n d Hd) as B.
  set (q := n / d) in *. set (r := n mod d) in *.
  assert (Hk : forall k, 0 < k -> d <= d * k) by (intros; nia).
  destruct (Z.ltb_spec (2 * r) d).
  - destruct (Z.lt_trichotomy q a) as [L|[L|L]]; [|exact L|].
    + pose proof (Hk (a - q) ltac:(lia)). nia.
    + pose proof (Hk (q - a) ltac:(lia)). nia.
  - destruct (Z.ltb_spec d (2 * r)).
    + destruct (Z.lt_trichotomy (q + 1) a) as [L|[L|L]]; [|exact L|].
      * pose proof (Hk (a - q - 1) ltac:(lia)). nia.
      * pose proof (Hk (q + 1 - a) ltac:(lia)). nia.
    + exfalso.
      destruct (Z.lt_trichotomy q a) as [L|[L|L]].
      * pose proof (Hk (a - q) ltac:(lia)). nia.
      * nia.
      * pose proof (Hk (q - a) ltac:(lia)). nia.
Qed.

(** **** The rounded quotient is correctly rounded *)

Lemma scale_pos a b j : 0 < a -> 0 < b -> 0 < scale_num a j /\ 0 < scale_den b j.
Proof.
  intros Ha Hb. unfold scale_num, scale_den.
  destruct (Z.leb_spec 0 j).
  - pose proof (Z.pow_pos_nonneg 2 j ltac:(lia) ltac:(lia)). nia.
  - pose proof (Z.pow_pos_nonneg 2 (- j) ltac:(lia) ltac:(lia)). nia.
Qed.

(** Lowering the exponent by [n] multiplies the quotient by [2^n]. *)
Lemma scale_shift a b j n :
  0 < a -> 0 < b -> 0 <= n ->
  scale_num a (j - n) * scale_den b j
  = scale_num a j * scale_den b (j - n) * 2 ^ n.
Proof.
  intros Ha Hb Hn. unfold scale_num, scale_den.
  destruct (Z.leb_spec 0 j); destruct (Z.leb_spec 0 (j - n)); try lia.
  - replace j with ((j - n) + n) at 1 by lia. rewrite Z.pow_add_r by lia. ring.
  - replace n with (j + - (j - n)) at 2 by lia. rewrite Z.pow_add_r by lia. ring.
  - replace (- (j - n)) with (- j + n) by lia. rewrite Z.pow_add_r by lia. ring.
Qed.

Lemma scale_ge a b j n :
  0 < a -> 0 < b -> 0 <= n ->
  scale_den b j <= scale_num a j ->
  scale_den b (j - n) * 2 ^ n <= scale_num a (j - n).
Proof.
  intros Ha Hb Hn H.
  pose proof (scale_shift a b j n Ha Hb Hn) as E.
  pose proof (scale_pos a b j Ha Hb) as [? ?].
  pose proof (scale_pos a b (j - n) Ha Hb) as [? ?].
  pose proof (Z.pow_pos_nonneg 2 n ltac:(lia) Hn).
  set (x := scale_den b (j - n) * 2 ^ n) in *.
  assert (0 < x) by (unfold x; nia).
  replace (scale_num a j * scale_den b (j - n) * 2 ^ n)
    with (scale_num a j * x) in E by (unfold x; ring).
  nia.
Qed.

Lemma scale_lt a b j n :
  0 < a -> 0 < b -> 0 <= n ->
  scale_num a j < scale_den b j ->
  scale_num a (j - n) < scale_den b (j - n) * 2 ^ n.
Proof.
  intros Ha Hb Hn H.
  pose proof (scale_shift a b j n Ha Hb Hn) as E.
  pose proof (scale_pos a b j Ha Hb) as [? ?].
  pose proof (scale_pos a b (j - n) Ha Hb) as [? ?].
  pose proof (Z.pow_pos_nonneg 2 n ltac:(lia) Hn).
  set (x := scale_den b (j - n) * 2 ^ n) in *.
  assert (0 < x) by (unfold x; nia).
  replace (scale_num a j * scale_den b (j - n) * 2 ^ n)
    with (scale_num a j * x) in E by (unfold x; ring).
  nia.
Qed.

Lemma rne_div_between (n d lo hi : Z) :
  0 < d -> d * lo <= n -> n <= d * hi -> lo <= rne_div n d <= hi.
Proof.
  intros Hd Hlo Hhi. unfold rne_div.
  pose proof (Z.div_mod n d ltac:(lia)) as E.
  pose proof (Z.mod_pos_bound n d Hd) as B.
  set (q := n / d) in *. set (r := n mod d) in *.
  assert (lo <= q) by nia.
  assert (q <= hi) by nia.
  assert (q = hi -> r = 0) by nia.
  destruct (Z.ltb_spec (2 * r) d); [lia|].
  destruct (Z.ltb_spec d (2 * r)); [lia|].
  destruct (Z.even q); lia.
Qed.

Lemma scale_log2 a b :
  0 < a -> 0 < b ->
  let k := Z.log2 a - Z.log2 b in
  scale_num a (k + 1) < scale_den b (k + 1)
  /\ scale_den b (k - 1) <= scale_num a (k - 1).
Proof.
  intros Ha Hb k.
  pose proof (Z.log2_spec a Ha) as [La Ua].
  pose proof (Z.log2_spec b Hb) as [Lb Ub].
  pose proof (Z.log2_nonneg a). pose proof (Z.log2_nonneg b).
  rewrite <- Z.add_1_r in Ua, Ub.
  unfold scale_num, scale_den. split.
  - destruct (Z.leb_spec 0 (k + 1)).
    + assert (E : 2 ^ (Z.log2 a + 1) = 2 ^ Z.log2 b * 2 ^ (k + 1)).
      { rewrite <- Z.pow_add_r by lia. f_equal. lia. }
      pose proof (Z.pow_pos_nonneg 2 (k + 1) ltac:(lia) ltac:(lia)). nia.
    + assert (E : 2 ^ Z.log2 b = 2 ^ (Z.log2 a + 1) * 2 ^ (- (k + 1))).
      { rewrite <- Z.pow_add_r by lia. f_equal. lia. }
      pose proof (Z.pow_pos_nonneg 2 (- (k + 1)) ltac:(lia) ltac:(lia)). nia.
  - destruct (Z.leb_spec 0 (k - 1)).
    + assert (E : 2 ^ Z.log2 a = 2 ^ (Z.log2 b + 1) * 2 ^ (k - 1)).
      { rewrite <- Z.pow_add_r by lia. f_equal. lia. }
      pose proof (Z.pow_pos_nonneg 2 (k - 1) ltac:(lia) ltac:(lia)). nia.
    + assert (E : 2 ^ (Z.log2 b + 1) = 2 ^ Z.log2 a * 2 ^ (- (k - 1))).
      { rewrite <- Z.pow_add_r by lia. f_equal. lia. }
      pose proof (Z.pow_pos_nonneg 2 (- (k - 1)) ltac:(lia) ltac:(lia)). nia.
Qed.

(** Raising the exponent by one halves the quotient. *)
Lemma scale_succ a b j :
  0 < a -> 0 < b ->
  scale_num a j * scale_den b (j + 1)
  = 2 * scale_num a (j + 1) * scale_den b j.
Proof.
  intros Ha Hb.
  pose proof (scale_shift a b (j + 1) 1 Ha Hb ltac:(lia)) as E.
  replace (j + 1 - 1) with j in E by lia.
  change (2 ^ 1) with 2 in E. lia.
Qed.

(** [round_quo] is the correctly rounded quotient: a mantissa of exactly
    [p] bits whose value [m * 2^e] is within half a unit in the last place
    of [a / b]. *)
Lemma round_quo_spec (p a b m e : Z) :
  1 <= p -> 0 < a -> 0 < b ->
  round_quo p a b = (m, e) ->
  2 ^ (p - 1) <= m < 2 ^ p
  /\ - scale_den b e <= 2 * (m * scale_den b e - scale_num a e) <= scale_den b e.
Proof.
  intros Hp Ha Hb. unfold round_quo.
  set (k := Z.log2 a - Z.log2 b).
  destruct (scale_log2 a b Ha Hb) as [Hup Hlow]. fold k in Hup, Hlow.
  set (lg := if scale_den b k <=? scale_num a k then k else k - 1).
  assert (Hlg : scale_den b lg <= scale_num a lg
                /\ scale_num a (lg + 1) < scale_den b (lg + 1)).
  { unfold lg. destruct (Z.leb_spec (scale_den b k) (scale_num a k)).
    - split; [assumption|exact Hup].
    - split; [exact Hlow|]. now replace (k - 1 + 1) with k by lia. }
  destruct Hlg as [Hge Hlt].
  set (e0 := lg - (p - 1)).
  pose proof (scale_ge a b lg (p - 1) Ha Hb ltac:(lia) Hge) as Lo.
  pose proof (scale_lt a b (lg + 1) p Ha Hb ltac:(lia) Hlt) as Hi.
  replace (lg + 1 - p) with e0 in Hi by (unfold e0; lia).
  fold e0 in Lo.
  destruct (scale_pos a b e0 Ha Hb) as [Hn Hd].
  pose proof (rne_div_spec (scale_num a e0) (scale_den b e0) Hd) as R.
  pose proof (rne_div_between (scale_num a e0) (scale_den b e0)
                (2 ^ (p - 1)) (2 ^ p) Hd ltac:(lia) ltac:(lia)) as B.
  set (m0 := rne_div (scale_num a e0) (scale_den b e0)) in *.
  assert (Hpow : 2 ^ p = 2 * 2 ^ (p - 1)).
  { replace p with (1 + (p - 1)) at 1 by lia. now rewrite Z.pow_add_r by lia. }
  pose proof (Z.pow_pos_nonneg 2 (p - 1) ltac:(lia) ltac:(lia)).
  destruct (Z.eqb_spec m0 (2 ^ p)) as [E|E]; intros [= <- <-].
  - split; [lia|].
    pose proof (scale_succ a b e0 Ha Hb) as S.
    destruct (scale_pos a b (e0 + 1) Ha Hb) as [Hn1 Hd1].
    rewrite E, Hpow in R.
    set (h := 2 ^ (p - 1)) in *.
    set (n0 := scale_num a e0) in *. set (d0 := scale_den b e0) in *.
    set (n1 := scale_num a (e0 + 1)) in *. set (d1 := scale_den b (e0 + 1)) in *.
    assert (D : d1 = d0 /\ n0 = 2 * n1 \/ d1 = 2 * d0 /\ n0 = n1).
    { unfold d1, d0, n0, n1, scale_den, scale_num.
      destruct (Z.leb_spec 0 e0); destruct (Z.leb_spec 0 (e0 + 1)); try lia.
      - right. split; [|reflexivity].
        rewrite Z.pow_add_r by lia. change (2 ^ 1) with 2. ring.
      - left. replace (e0 + 1) with 0 by lia. replace (- e0) with 1 by lia.
        change (2 ^ 0) with 1. change (2 ^ 1) with 2. split; ring.
      - left. split; [reflexivity|].
        replace (- e0) with (- (e0 + 1) + 1) by lia.
        rewrite Z.pow_add_r by lia. change (2 ^ 1) with 2. ring. }
    destruct D as [[-> ->]|[-> ->]]; nia.
  - split; [lia|exact R].
Qed.

(** **** The quotient by [GWEI] *)

Ltac norm_pow :=
  repeat match goal with
    | |- context [Z.pow (Zpos ?a) (Zpos ?b)] =>
        let v := eval vm_compute in (Z.pow (Zpos a) (Zpos b)) in
        change (Z.pow (Zpos a) (Zpos b)) with v
    | |- context [Z.pow (Zpos ?a) (Zpos ?b - Zpos ?c)] =>
        let v := eval vm_compute in (Z.pow (Zpos a) (Zpos b - Zpos c)) in
        change (Z.pow (Zpos a) (Zpos b - Zpos c)) with v
    | H : context [Z.pow (Zpos ?a) (Zpos ?b)] |- _ =>
        let v := eval vm_compute in (Z.pow (Zpos a) (Zpos b)) in
        change (Z.pow (Zpos a) (Zpos b)) with v in H
    end.

(** For a normalised dividend [a * 2^s] of [p >= 64] bits, whose quotient
    by [GWEI] has a unit in the last place of at most [2^-30], scaling the
    rounded quotient back by [10^9] and rounding to an integer returns
    [a]. *)
Lemma round_quo_gwei (a p s : Z) :
  1 <= a -> 0 <= s -> 64 <= p ->
  Z.log2 (a * 2 ^ s) = p - 1 ->
  (1 <= s \/ a * 2 ^ s < 10 ^ 9 * 2 ^ (p - 30)) ->
  forall m e, round_quo p (a * 2 ^ s) (10 ^ 9 * 2 ^ 34) = (m, e) ->
  e - s + 34 < 0 /\ rne_div (m * 10 ^ 9) (2 ^ (- (e - s + 34))) = a.
Proof.
  intros Ha Hs Hp Hlog Hlt m e.
  unfold round_quo. rewrite Hlog.
  change (Z.log2 (10 ^ 9 * 2 ^ 34)) with 63.
  replace (p - 1 - 63) with (p - 64) by lia.
  assert (Hsd : scale_den (10 ^ 9 * 2 ^ 34) (p - 64)
                = 10 ^ 9 * 2 ^ 34 * 2 ^ (p - 64)).
  { unfold scale_den. destruct (Z.leb_spec 0 (p - 64)); [reflexivity|lia]. }
  assert (Hsn : scale_num (a * 2 ^ s) (p - 64) = a * 2 ^ s).
  { unfold scale_num. destruct (Z.leb_spec 0 (p - 64)); [reflexivity|lia]. }
  rewrite Hsd, Hsn. clear Hsd Hsn.
  assert (HP : 0 < 2 ^ s) by (apply Z.pow_pos_nonneg; lia).
  assert (HQ : 0 < 2 ^ (p - 64)) by (apply Z.pow_pos_nonneg; lia).
  assert (HA : 2 ^ (p - 1) <= a * 2 ^ s < 2 ^ p).
  { pose proof (Z.log2_spec (a * 2 ^ s) ltac:(nia)) as L.
    rewrite Hlog in L. replace (Z.succ (p - 1)) with p in L by lia. exact L. }
  replace (p - 30) with (34 + (p - 64)) in Hlt by lia.
  rewrite Z.pow_add_r in Hlt by lia.
  replace p with (64 + (p - 64)) in HA at 2 by lia.
  replace (p - 1) with (63 + (p - 64)) in HA by lia.
  rewrite !Z.pow_add_r in HA by lia.
  set (A := a * 2 ^ s) in *. set (Q := 2 ^ (p - 64)) in *.
  assert (Hcore : forall sh, (sh = 63 \/ sh = 64) -> (sh = 63 -> 1 <= s) ->
            forall m' e',
              (if rne_div (A * 2 ^ sh) (10 ^ 9 * 2 ^ 34) =? 2 ^ p
               then (2 ^ (p - 1), - sh + 1)
               else (rne_div (A * 2 ^ sh) (10 ^ 9 * 2 ^ 34), - sh)) = (m', e') ->
              e' - s + 34 < 0 /\
              rne_div (m' * 10 ^ 9) (2 ^ (- (e' - s + 34))) = a).
  { intros sh Hsh Hs1 m' e'.
    pose proof (rne_div_spec (A * 2 ^ sh) (10 ^ 9 * 2 ^ 34) ltac:(lia)) as R.
    set (m0 := rne_div (A * 2 ^ sh) (10 ^ 9 * 2 ^ 34)) in *.
    assert (HP1 : sh = 63 -> 2 <= 2 ^ s).
    { intros E. change 2 with (2 ^ 1) at 1. apply Z.pow_le_mono_r; lia. }
    destruct (Z.eqb_spec m0 (2 ^ p)) as [E|E]; intros [= <- <-].
    - split; [lia|]. apply rne_div_unique; [apply Z.pow_pos_nonneg; lia|].
      replace (- (- sh + 1 - s + 34)) with ((sh - 35) + s) by lia.
      replace p with (1 + (p - 1)) in E by lia.
      rewrite Z.pow_add_r in E by lia. rewrite Z.pow_add_r by lia.
      set (H1 := 2 ^ (p - 1)) in *. unfold A in R.
      set (P := 2 ^ s) in *.
      destruct Hsh as [-> | ->]; norm_pow; nia.
    - split; [lia|]. apply rne_div_unique; [apply Z.pow_pos_nonneg; lia|].
      replace (- (- sh - s + 34)) with ((sh - 34) + s) by lia.
      rewrite Z.pow_add_r by lia.
      unfold A in R. set (P := 2 ^ s) in *.
      destruct Hsh as [-> | ->]; norm_pow; nia. }
  destruct (Z.leb_spec (10 ^ 9 * 2 ^ 34 * Q) A) as [G|G].
  - replace (p - 64 - (p - 1)) with (- (63)) by lia.
    change (scale_num A (- (63))) with (A * 2 ^ 63).
    change (scale_den (10 ^ 9 * 2 ^ 34) (- (63))) with (10 ^ 9 * 2 ^ 34).
    apply (Hcore 63); [now left|]. intros _. destruct Hlt; lia.
  - replace (p - 64 - 1 - (p - 1)) with (- (64)) by lia.
    change (scale_num A (- (64))) with (A * 2 ^ 64).
    change (scale_den (10 ^ 9 * 2 ^ 34) (- (64))) with (10 ^ 9 * 2 ^ 34).
    apply (Hcore 64); [now right|]. lia.
Qed.

(** [SetInt] is exact and normalised. *)
Lemma SetInt_spec (x : Z) :
  x <> 0 ->
  mant (SetInt x) = Z.abs x * 2 ^ (- exp (SetInt x))
  /\ exp (SetInt x) <= 0
  /\ 2 ^ (prec (SetInt x) - 1) <= mant (SetInt x) < 2 ^ prec (SetInt x).
Proof.
  intros NZ. unfold SetInt, BigInt.BitLen; cbn [mant exp prec].
  destruct (Z.eqb_spec (Z.abs x) 0) as [|_]; [lia|].
  pose proof (Z.log2_nonneg (Z.abs x)).
  pose proof (Z.log2_spec (Z.abs x) ltac:(lia)) as [L U].
  rewrite <- Z.add_1_r in U.
  set (bl := Z.log2 (Z.abs x) + 1) in *. set (p := Z.max bl 64).
  split; [f_equal; f_equal; lia|]. split; [lia|].
  replace (p - 1) with ((bl - 1) + (p - bl)) by lia.
  replace p with (bl + (p - bl)) at 4 by lia.
  rewrite !Z.pow_add_r by lia.
  replace (bl - 1) with (Z.log2 (Z.abs x)) by lia.
  pose proof (Z.pow_pos_nonneg 2 (p - bl) ltac:(lia) ltac:(lia)). nia.
Qed.

(** The quotient of a non-zero reward by [GWEI], field by field. *)
Lemma Quo_gwei (r : Z) :
  r <> 0 ->
  let bl := BigInt.BitLen r in
  let p := Z.max bl 64 in
  Quo (SetInt r) (SetInt GWEI)
  = let '(m, e) := round_quo p (Z.abs r * 2 ^ (p - bl)) (10 ^ 9 * 2 ^ 34) in
    {| prec := p; neg := r <? 0; mant := m; exp := e - (p - bl) + 34 |}.
Proof.
  intros NZ bl p. unfold Quo.
  change (prec (SetInt GWEI)) with 64.
  change (mant (SetInt GWEI)) with (10 ^ 9 * 2 ^ 34).
  change (exp (SetInt GWEI)) with (- 34).
  change (neg (SetInt GWEI)) with false.
  change (prec (SetInt r)) with p.
  change (mant (SetInt r)) with (Z.abs r * 2 ^ (p - bl)).
  change (neg (SetInt r)) with (r <? 0).
  assert (E : exp (SetInt r) = bl - p).
  { unfold SetInt; cbn [exp]. destruct (Z.eqb_spec (Z.abs r) 0); [lia|reflexivity]. }
  rewrite E.
  replace (Z.max p 64) with p by lia.
  assert (0 < 2 ^ (p - bl)).
  { apply Z.pow_pos_nonneg; lia. }
  destruct (Z.eqb_spec (Z.abs r * 2 ^ (p - bl)) 0) as [Z0|_]; [nia|].
  destruct (round_quo _ _ _) as [m e].
  f_equal; [now destruct (r <? 0)|lia].
Qed.

(** Below the precision bound the scaled quotient is the reward itself. *)
Lemma scaled_exact (r : Z) :
  Z.abs r < 10 ^ 9 * 2 ^ (Z.max (BigInt.BitLen r) 64 - 30) ->
  scaled (Quo (SetInt r) (SetInt GWEI)) 9 = Z.abs r.
Proof.
  intros Hr.
  destruct (Z.eq_dec r 0) as [->|NZ]; [reflexivity|].
  rewrite (Quo_gwei r NZ).
  set (bl := BigInt.BitLen r) in *. set (p := Z.max bl 64) in *.
  assert (Hbl : bl = Z.log2 (Z.abs r) + 1).
  { unfold bl, BigInt.BitLen. destruct (Z.eqb_spec (Z.abs r) 0); [lia|reflexivity]. }
  pose proof (Z.log2_nonneg (Z.abs r)).
  assert (Hlog : Z.log2 (Z.abs r * 2 ^ (p - bl)) = p - 1).
  { rewrite Z.log2_mul_pow2 by lia. lia. }
  assert (Hside : 1 <= p - bl \/
                  Z.abs r * 2 ^ (p - bl) < 10 ^ 9 * 2 ^ (p - 30)).
  { destruct (Z.eq_dec (p - bl) 0) as [E|E]; [right|left; lia].
    rewrite E, Z.mul_1_r. exact Hr. }
  pose proof (round_quo_gwei (Z.abs r) p (p - bl) ltac:(lia) ltac:(lia)
                ltac:(lia) Hlog Hside) as Q.
  destruct (round_quo _ _ _) as [m e].
  destruct (Q m e eq_refl) as [Hneg Hdiv].
  unfold scaled; cbn [exp mant].
  destruct (Z.leb_spec 0 (e - (p - bl) + 34)); [lia|].
  exact Hdiv.
Qed.

End BigFloatFacts.

(** *** The text of a float *)

Module TextFacts.
Import BigFloat BigFloatFacts.

Lemma digit_char_cases (d : Z) :
  exists k, (k < 10)%nat /\ digit_char d = ascii_of_nat (48 + k).
Proof.
  unfold digit_char.
  pose proof (Z.mod_pos_bound d 10 ltac:(lia)) as B.
  exists (Z.to_nat (d mod 10)). split; [lia|].
  f_equal. lia.
Qed.

Lemma isDigit_digit_char (d : Z) : isDigit (digit_char d) = true.
Proof.
  destruct (digit_char_cases d) as [k [Hk ->]].
  do 10 (destruct k as [|k]; [reflexivity|]). lia.
Qed.

Lemma isDigit_not_point (c : ascii) : isDigit c = true -> Ascii.eqb c "." = false.
Proof.
  intros H. destruct (Ascii.eqb_spec c "."); [subst; discriminate|reflexivity].
Qed.

Lemma length_app (s1 s2 : string) :
  String.length (s1 ++ s2) = (String.length s1 + String.length s2)%nat.
Proof. induction s1 as [|c s1 IH]; simpl; [reflexivity|now rewrite IH]. Qed.

Lemma digits_length (k : nat) : forall n, String.length (digits k n) = k.
Proof.
  induction k as [|k IH]; intros n; simpl; [reflexivity|].
  rewrite length_app, IH. simpl. lia.
Qed.

Lemma allDigits_app (s1 s2 : string) :
  allDigits (s1 ++ s2) = allDigits s1 && allDigits s2.
Proof.
  induction s1 as [|c s1 IH]; simpl; [reflexivity|].
  now rewrite IH, andb_assoc.
Qed.

Lemma digits_allDigits (k : nat) : forall n, allDigits (digits k n) = true.
Proof.
  induction k as [|k IH]; intros n; simpl; [reflexivity|].
  rewrite allDigits_app, IH. simpl. now rewrite isDigit_digit_char.
Qed.

Lemma itoa_aux_shape (fuel : nat) :
  forall n c acc,
    isDigit c = true -> allDigits acc = true ->
    exists c' rest,
      itoa_aux fuel n (String c acc) = String c' rest
      /\ isDigit c' = true /\ allDigits rest = true.
Proof.
  induction fuel as [|fuel IH]; intros n c acc Hc Hacc; simpl.
  - eauto.
  - destruct (n / 10 =? 0).
    + exists (digit_char n), (String c acc). simpl.
      rewrite Hc, Hacc, isDigit_digit_char. auto.
    + apply IH; [apply isDigit_digit_char|]. simpl. now rewrite Hc, Hacc.
Qed.

Lemma itoa_shape (n : Z) :
  exists c rest,
    itoa n = String c rest /\ isDigit c = true /\ allDigits rest = true.
Proof.
  unfold itoa. cbn [itoa_aux].
  destruct (n / 10 =? 0).
  - exists (digit_char n), "". now rewrite isDigit_digit_char.
  - apply itoa_aux_shape; [apply isDigit_digit_char|reflexivity].
Qed.

Lemma unsignedFixed_app (n : nat) (int frac : string) :
  allDigits int = true ->
  forall seen,
    unsignedFixed n seen (int ++ "." ++ frac)
    = (seen || negb (String.length int =? 0)%nat)
      && (String.length frac =? n)%nat && allDigits frac.
Proof.
  induction int as [|c int IH]; intros Hint seen; simpl.
  - now rewrite orb_false_r.
  - simpl in Hint. apply andb_prop in Hint as [Hc Hint].
    rewrite (isDigit_not_point c Hc), Hc, (IH Hint). simpl.
    now rewrite orb_true_r.
Qed.

(** The text of a float in format ['f'] with [n] digits. *)
Lemma Text_shape (x : Float) (n : nat) :
  n <> O ->
  exists c rest,
    Text x n = (if neg x then "-" else "") ++ String c rest
    /\ isDigit c = true
    /\ unsignedFixed n false (String c rest) = true.
Proof.
  intros Hn. unfold Text.
  destruct (itoa_shape (scaled x n / 10 ^ Z.of_nat n)) as [c [rest [E [Hc Hrest]]]].
  rewrite E.
  exists c, (rest ++ "." ++ digits n (scaled x n mod 10 ^ Z.of_nat n)).
  destruct n as [|n]; [congruence|].
  split; [reflexivity|]. split; [exact Hc|].
  change (String c (rest ++ "." ++ ?f)) with (String c rest ++ "." ++ f).
  rewrite unsignedFixed_app by (simpl; now rewrite Hc, Hrest).
  now rewrite digits_length, Nat.eqb_refl, digits_allDigits.
Qed.

Lemma isFixed_Text (x : Float) (n : nat) : n <> O -> isFixed n (Text x n) = true.
Proof.
  intros Hn. destruct (Text_shape x n Hn) as [c [rest [-> [Hc H]]]].
  destruct (neg x); simpl append.
  - exact H.
  - unfold isFixed.
    destruct c as [[] [] [] [] [] [] [] []]; try exact H; discriminate.
Qed.

Lemma isNegative_Text (x : Float) (n : nat) :
  n <> O -> isNegative (Text x n) = neg x.
Proof.
  intros Hn. destruct (Text_shape x n Hn) as [c [rest [-> [Hc H]]]].
  destruct (neg x); [reflexivity|]. simpl.
  destruct c as [[] [] [] [] [] [] [] []]; try reflexivity; discriminate.
Qed.

Lemma neg_Quo_gwei (r : Z) : neg (Quo (SetInt r) (SetInt GWEI)) = (r <? 0).
Proof.
  unfold Quo. destruct (mant (SetInt r) =? 0).
  - cbn. now destruct (r <? 0).
  - destruct (round_quo _ _ _). cbn. now destruct (r <? 0).
Qed.

(** The reward texts of the repository's test fixtures and of its README. *)
Example rewardAsText_fixture_vanilla : rewardAsText 1 = "0.000000001".
Proof. reflexivity. Qed.

Example rewardAsText_fixture_mev : rewardAsText 2 = "0.000000002".
Proof. reflexivity. Qed.

Example rewardAsText_readme :
  rewardAsText 14173226892490975 = "14173226.892490975"
  /\ rewardAsText 45486304688277971 = "45486304.688277971".
Proof. split; vm_compute; reflexivity. Qed.

(** With 64 mantissa bits the quotient loses the last digit from
    [2^34 * 10^9] on. *)
Example rewardAsText_rounds :
  rewardAsText 17179869183999999999 = "17179869183.999999999"
  /\ rewardAsText 17179869184000000001 = "17179869184.000000002"
  /\ rewardAsText 18446744073709551615 = "18446744073.709551616".
Proof. repeat split; vm_compute; reflexivity. Qed.

Lemma rewardAsText_fixed (r : Z) : isFixed 9 (rewardAsText r) = true.
Proof. apply isFixed_Text. discriminate. Qed.

Lemma rewardAsText_sign (r : Z) : isNegative (rewardAsText r) = (r <? 0).
Proof.
  unfold rewardAsText. rewrite isNegative_Text by discriminate.
  apply neg_Quo_gwei.
Qed.

Lemma rewardAsText_exact (r : Z) :
  Z.abs r < 10 ^ 9 * 2 ^ (Z.max (BigInt.BitLen r) 64 - 30) ->
  rewardAsText r = fixed9 r.
Proof.
  intros H. unfold rewardAsText, Text, fixed9.
  rewrite (scaled_exact r H), neg_Quo_gwei. reflexivity.
Qed.

Lemma small_is_exact (r : Z) :
  Z.abs r < 2 ^ 34 * 10 ^ 9 ->
  Z.abs r < 10 ^ 9 * 2 ^ (Z.max (BigInt.BitLen r) 64 - 30).
Proof.
  intros H.
  assert (2 ^ 34 <= 2 ^ (Z.max (BigInt.BitLen r) 64 - 30)).
  { apply Z.pow_le_mono_r; lia. }
  nia.
Qed.

(** **** Digit strings read back *)

Lemma digit_of_digit_char (d : Z) :
  BigInt.digit_of (digit_char d) = Some (d mod 10).
Proof.
  unfold digit_char.
  pose proof (Z.mod_pos_bound d 10 ltac:(lia)) as B.
  remember (d mod 10) as k eqn:Ek. clear Ek.
  assert (H : k = 0 \/ k = 1 \/ k = 2 \/ k = 3 \/ k = 4 \/ k = 5 \/ k = 6
              \/ k = 7 \/ k = 8 \/ k = 9) by lia.
  repeat (destruct H as [-> | H]; [reflexivity|]). subst k. reflexivity.
Qed.

Lemma scan_cons (c : ascii) (s : string) (acc : Z) (count : bool) (d : Z) :
  BigInt.digit_of c = Some d ->
  BigInt.scan (String c s) acc count = BigInt.scan s (10 * acc + d) true.
Proof. intros H. cbn [BigInt.scan]. now rewrite H. Qed.

Lemma itoa_aux_S (fuel : nat) (n : Z) (acc : string) :
  itoa_aux (S fuel) n acc
  = if n / 10 =? 0 then String (digit_char n) acc
    else itoa_aux fuel (n / 10) (String (digit_char n) acc).
Proof. reflexivity. Qed.

(** Reading the digits that [itoa_aux] puts in front of [acc]. *)
Lemma scan_itoa_aux (fuel : nat) :
  forall n acc,
    0 <= n < 10 ^ Z.of_nat (S fuel) ->
    BigInt.scan (itoa_aux (S fuel) n acc) 0 false = BigInt.scan acc n true.
Proof.
  induction fuel as [|fuel IH]; intros n acc Hn; rewrite itoa_aux_S.
  - change (10 ^ Z.of_nat 1) with 10 in Hn.
    rewrite (Z.div_small n 10 Hn). cbn [Z.eqb].
    rewrite (scan_cons _ _ _ _ _ (digit_of_digit_char n)).
    f_equal. rewrite Z.mod_small; lia.
  - destruct (Z.eqb_spec (n / 10) 0) as [E|E].
    + rewrite (scan_cons _ _ _ _ _ (digit_of_digit_char n)).
      f_equal. pose proof (Z.div_mod n 10 ltac:(lia)). lia.
    + rewrite IH.
      * rewrite (scan_cons _ _ _ _ _ (digit_of_digit_char n)).
        f_equal. pose proof (Z.div_mod n 10 ltac:(lia)). lia.
      * split; [apply Z.div_pos; lia|].
        apply Z.div_lt_upper_bound; [lia|].
        replace (Z.of_nat (S (S fuel))) with (1 + Z.of_nat (S fuel)) in Hn by lia.
        rewrite Z.pow_add_r in Hn by lia. lia.
Qed.

Lemma itoa_fuel (n : Z) :
  0 <= n -> n < 10 ^ Z.of_nat (S (Z.to_nat (Z.log2 n))).
Proof.
  intros Hn. destruct (Z.eq_dec n 0) as [->|NZ]; [reflexivity|].
  pose proof (Z.log2_spec n ltac:(lia)) as [_ U].
  pose proof (Z.log2_nonneg n).
  replace (Z.of_nat (S (Z.to_nat (Z.log2 n)))) with (Z.succ (Z.log2 n)) by lia.
  eapply Z.lt_le_trans; [exact U|].
  apply Z.pow_le_mono_l. lia.
Qed.

(** [itoa] writes the decimal numeral of its argument: [SetString] reads it
    back. *)
Lemma SetString_itoa (n : Z) : 0 <= n -> BigInt.SetString (itoa n) = Some n.
Proof.
  intros Hn.
  assert (E : BigInt.scan (itoa n) 0 false = Some n).
  { unfold itoa. rewrite scan_itoa_aux by (split; [lia|now apply itoa_fuel]).
    reflexivity. }
  destruct (itoa_shape n) as [c [rest [S [Hc _]]]].
  rewrite S in *. unfold BigInt.SetString.
  destruct c as [[] [] [] [] [] [] [] []]; try exact E; discriminate.
Qed.

Lemma append_assoc (s1 s2 s3 : string) :
  (s1 ++ s2) ++ s3 = s1 ++ (s2 ++ s3).
Proof. induction s1 as [|c s1 IH]; simpl; [reflexivity|now rewrite IH]. Qed.

(** Reading the [k] digits of [digits k n] after an accumulator. *)
Lemma scan_digits (k : nat) :
  forall n rest acc count,
    BigInt.scan (digits k n ++ rest) acc count
    = BigInt.scan rest (acc * 10 ^ Z.of_nat k + n mod 10 ^ Z.of_nat k)
        (count || negb (Nat.eqb k 0)).
Proof.
  induction k as [|k IH]; intros n rest acc count.
  - cbn [digits append Nat.eqb negb]. rewrite orb_false_r, Z.mod_1_r.
    f_equal. change (10 ^ Z.of_nat 0) with 1. lia.
  - cbn [digits Nat.eqb negb]. rewrite orb_true_r.
    rewrite append_assoc. cbn [append].
    rewrite IH, (scan_cons _ _ _ _ _ (digit_of_digit_char n)).
    f_equal.
    replace (Z.of_nat (S k)) with (1 + Z.of_nat k) by lia.
    rewrite Z.pow_add_r by lia. change (10 ^ 1) with 10.
    pose proof (Z.pow_pos_nonneg 10 (Z.of_nat k) ltac:(lia) ltac:(lia)) as P.
    rewrite (Z.rem_mul_r n 10 (10 ^ Z.of_nat k)) by lia.
    ring.
Qed.

Lemma append_empty_r (s : string) : s ++ "" = s.
Proof. induction s as [|c s IH]; simpl; [reflexivity|now rewrite IH]. Qed.

Lemma itoa_aux_app (fuel : nat) :
  forall n acc rest,
    itoa_aux fuel n acc ++ rest = itoa_aux fuel n (acc ++ rest).
Proof.
  induction fuel as [|fuel IH]; intros n acc rest; [reflexivity|].
  rewrite !itoa_aux_S. destruct (n / 10 =? 0); [reflexivity|].
  now rewrite IH.
Qed.

(** [fixed9 r] is the decimal expansion of [r / 10^9]: without the sign
    and the point its digits are the numeral of the absolute value. *)
Lemma fixed9_reads_back (r : Z) :
  BigInt.scan (itoa (Z.abs r / 10 ^ 9) ++ digits 9 (Z.abs r mod 10 ^ 9)) 0 false
  = Some (Z.abs r).
Proof.
  assert (Hq : 0 <= Z.abs r / 10 ^ 9) by (apply Z.div_pos; lia).
  unfold itoa. rewrite itoa_aux_app. cbn [append].
  rewrite scan_itoa_aux by (split; [lia|now apply itoa_fuel]).
  rewrite <- (append_empty_r (digits 9 _)), scan_digits.
  cbn [BigInt.scan orb]. f_equal.
  change (10 ^ Z.of_nat 9) with (10 ^ 9).
  rewrite Z.mod_mod by lia.
  pose proof (Z.div_mod (Z.abs r) (10 ^ 9) ltac:(lia)). lia.
Qed.

End TextFacts.

Import BigFloat BigFloatFacts TextFacts.

Lemma int64_small (u : Z) : 0 <= u < 2 ^ 63 -> BigInt.int64_of_uint64 u = u.
Proof.
  intros H. unfold BigInt.int64_of_uint64.
  rewrite Z.mod_small by lia.
  destruct (Z.ltb_spec u (2 ^ 63)); lia.
Qed.

(** *** The reward query on a resolved block *)

Section Reward.

Variables (w : World) (c : Web3Client) (ctx : Context).

(** **** The receipt fetch and the loop *)

(** The receipt fetch never panics and returns [receiptOutcome]. *)
Lemma TransactionReceipt_run h t :
  exists t', TransactionReceipt w c ctx h t = (Some (receiptOutcome w c ctx h), t').
Proof.
  unfold TransactionReceipt, receiptOutcome, RoundTrip, bind, sent, ret.
  destruct (Wait w Background); [eauto|].
  destruct (transport w _); eauto.
Qed.

(** The loop never panics and returns the fold of its body. *)
Lemma rewardLoop_run baseFee txs :
  forall acc t, exists t',
    rewardLoop w c ctx baseFee txs acc t
    = (Some (totals w c ctx baseFee txs acc), t').
Proof.
  induction txs as [|tx rest IH]; intros acc t; simpl.
  - now exists t.
  - destruct (TransactionReceipt_run (TxHash tx) t) as [t1 H1].
    rewrite (bind_run _ _ _ _ _ H1).
    apply IH.
Qed.

Lemma rewardStep_eq baseFee tx txCosts status :
  rewardStep baseFee tx (receiptOutcome w c ctx (TxHash tx)) (txCosts, status)
  = (txCosts + costOf w c ctx tx,
     if exceeds baseFee (priceOf w c ctx tx) then "mev" else status).
Proof.
  unfold rewardStep, costOf, priceOf, exceeds.
  destruct (costAndPrice tx _) as [cost gasPrice]; simpl.
  now rewrite Cmp_gt.
Qed.

(** The fold adds up the costs and raises the flag on any exceeding price. *)
Lemma totals_eq baseFee txs :
  forall txCosts status,
    totals w c ctx baseFee txs (txCosts, status)
    = (txCosts + totalCost w c ctx txs,
       if existsb (fun tx => exceeds baseFee (priceOf w c ctx tx)) txs
       then "mev"
       else status).
Proof.
  unfold totals.
  induction txs as [|tx rest IH]; intros txCosts status;
    cbn [fold_left fold_right totalCost existsb].
  - f_equal. lia.
  - rewrite rewardStep_eq, IH. fold (totalCost w c ctx rest). f_equal; [lia|].
    destruct (exceeds baseFee (priceOf w c ctx tx)); simpl; [|reflexivity].
    now destruct (existsb _ rest).
Qed.

(** The status the query reports for a block. *)
Lemma query_split slotId t :
  GetBlockRewardAndStatusBySlot w c ctx slotId t
  = bind (resolveBlock w c ctx slotId)
      (fun r => match r with
                | ok block =>
                    bind (rewardLoop w c ctx (BaseFee block) (Transactions block)
                                     (0, "vanilla"))
                      (fun totals =>
                         let '(txCosts, status) := totals in
                         ret (ok (rewardAsText
                                    (txCosts - BaseFee block
                                       * BigInt.int64_of_uint64 (GasUsed block)),
                                  status)))
                | err e => ret (err e)
                end) t.
Proof.
  unfold GetBlockRewardAndStatusBySlot, resolveBlock.
  destruct (BigInt.SetString slotId) as [s|]; [|reflexivity].
  destruct (negb _); [reflexivity|].
  unfold bind, ret.
  destruct (getCurrentSlotId w c t) as [[h|] t1]; [|reflexivity].
  destruct (BigInt.Cmp s h =? 1); [reflexivity|].
  destruct (getBlockHash w c slotId t1) as [[[hash|e]|] t2]; reflexivity.
Qed.

(** A resolved block always yields a result: the rendered net reward and
    the flag of the fold. *)
Lemma query_resolved slotId t block t' :
  resolveBlock w c ctx slotId t = (Some (ok block), t') ->
  exists t'',
    GetBlockRewardAndStatusBySlot w c ctx slotId t
    = (Some (ok (rewardAsText (netReward w c ctx block),
                 if existsb (fun tx => exceeds (BaseFee block) (priceOf w c ctx tx))
                            (Transactions block)
                 then "mev" else "vanilla")), t'').
Proof.
  intros H. rewrite query_split, (bind_run _ _ _ _ _ H).
  destruct (rewardLoop_run (BaseFee block) (Transactions block)
              (0, "vanilla") t') as [t'' Hl].
  exists t''. rewrite (bind_run _ _ _ _ _ Hl), totals_eq.
  unfold ret, netReward. repeat f_equal.
Qed.

(** **** The reward text *)


(** **** Classification *)

Lemma priceOf_eq tx :
  priceOf w c ctx tx
  = match receiptOutcome w c ctx (TxHash tx) with
    | ok receipt => EffectiveGasPrice receipt
    | err _ => GasPrice tx
    end.
Proof. unfold priceOf, costAndPrice. now destruct (receiptOutcome _ _ _ _). Qed.

Lemma existsb_exceeds baseFee txs :
  existsb (fun tx => exceeds baseFee (priceOf w c ctx tx)) txs = true
  <-> Exists (fun tx => MevFeeCalculationFactor * baseFee < priceOf w c ctx tx) txs.
Proof.
  rewrite existsb_exists, Exists_exists.
  split; intros [tx [Hin H]]; exists tx; split; auto;
    unfold exceeds in *; [apply Z.ltb_lt in H|apply Z.ltb_lt]; lia.
Qed.

Lemma not_Exists_exceeds baseFee txs :
  ~ Exists (fun tx => MevFeeCalculationFactor * baseFee < priceOf w c ctx tx) txs
  <-> Forall (fun tx => priceOf w c ctx tx <= MevFeeCalculationFactor * baseFee) txs.
Proof.
  rewrite Exists_exists, Forall_forall. split.
  - intros H tx Hin. apply Z.nlt_ge. intros L. apply H. now exists tx.
  - intros H [tx [Hin L]]. specialize (H tx Hin). lia.
Qed.

(** C2. For every resolved block the status is ["mev"] exactly when some
    transaction's price (the effective gas price of its receipt when the
    fetch succeeds, its declared gas price otherwise) strictly exceeds three
    times the base fee, and ["vanilla"] exactly when none does; there is no
    third value, and once the flag is ["mev"] after a prefix of the
    transactions it is ["mev"] at the end. *)
Theorem classification slotId t block t' :
  resolveBlock w c ctx slotId t = (Some (ok block), t') ->
  exists reward status t'',
    GetBlockRewardAndStatusBySlot w c ctx slotId t
    = (Some (ok (reward, status)), t'')
    /\ (status = "mev" <->
        Exists (fun tx => MevFeeCalculationFactor * BaseFee block
                          < priceOf w c ctx tx) (Transactions block))
    /\ (status = "vanilla" <->
        Forall (fun tx => priceOf w c ctx tx
                          <= MevFeeCalculationFactor * BaseFee block)
               (Transactions block))
    /\ (status = "mev" \/ status = "vanilla")
    /\ (forall tx,
          priceOf w c ctx tx
          = match receiptOutcome w c ctx (TxHash tx) with
            | ok receipt => EffectiveGasPrice receipt
            | err _ => GasPrice tx
            end)
    /\ (forall seen rest,
          Transactions block = (seen ++ rest)%list ->
          snd (totals w c ctx (BaseFee block) seen (0, "vanilla")) = "mev" ->
          status = "mev").
Proof.
  intros H. destruct (query_resolved _ _ _ _ H) as [t'' Hq].
  eexists _, _, t''. split; [exact Hq|].
  pose proof (existsb_exceeds (BaseFee block) (Transactions block)) as E.
  pose proof (not_Exists_exceeds (BaseFee block) (Transactions block)) as N.
  destruct (existsb _ (Transactions block)) eqn:B.
  - repeat split; auto.
    + intros _. now apply E.
    + discriminate.
    + intros F. apply N in F. exfalso. apply F. now apply E.
    + intros. apply priceOf_eq.
  - assert (NE : ~ Exists (fun tx => MevFeeCalculationFactor * BaseFee block
                                     < priceOf w c ctx tx) (Transactions block)).
    { intros X. apply E in X. discriminate. }
    repeat split; auto.
    + discriminate.
    + intros X. now apply NE in X.
    + intros _. now apply N.
    + intros. apply priceOf_eq.
    + intros seen rest Hsplit. rewrite totals_eq. cbn [snd].
      rewrite Hsplit, existsb_app in B. apply orb_false_elim in B as [-> _].
      auto.
Qed.

(** **** Costs and the receipt fallback *)

(** What the loop takes for each transaction, as the code has it: the
    query returns a result whatever receipt fetches fail; a transaction
    whose receipt fetch fails is taken with [tx.Cost()] and its declared
    gas price, every other one with the effective gas price of its receipt
    times the receipt's gas used (read as a signed 64-bit number) and with
    that effective gas price. *)
Lemma receipt_fallback slotId t block t' :
  resolveBlock w c ctx slotId t = (Some (ok block), t') ->
  (exists status t'',
     GetBlockRewardAndStatusBySlot w c ctx slotId t
     = (Some (ok (rewardAsText
                    (totalCost w c ctx (Transactions block)
                     - BaseFee block * BigInt.int64_of_uint64 (GasUsed block)),
                  status)), t''))
  /\ forall tx,
       In tx (Transactions block) ->
       match receiptOutcome w c ctx (TxHash tx) with
       | err _ =>
           costOf w c ctx tx
           = GasPrice tx * Gas tx + BlobGasFeeCap tx * BlobGas tx + Value tx
           /\ priceOf w c ctx tx = GasPrice tx
       | ok receipt =>
           costOf w c ctx tx
           = EffectiveGasPrice receipt
             * BigInt.int64_of_uint64 (ReceiptGasUsed receipt)
           /\ (0 <= ReceiptGasUsed receipt < 2 ^ 63 ->
               costOf w c ctx tx
               = EffectiveGasPrice receipt * ReceiptGasUsed receipt)
           /\ priceOf w c ctx tx = EffectiveGasPrice receipt
       end.
Proof.
  intros H. split.
  - destruct (query_resolved _ _ _ _ H) as [t'' Hq].
    eexists _, t''. exact Hq.
  - intros tx _. unfold costOf, priceOf, costAndPrice, Cost.
    destruct (receiptOutcome w c ctx (TxHash tx)) as [receipt|e]; cbn [fst snd].
    + repeat split. intros Hg. now rewrite int64_small.
    + split; reflexivity.
Qed.

(** **** The empty block *)

(** C10 (amended). For a resolved block without transactions the query
    succeeds without a single receipt fetch, with status ["vanilla"] and
    the text of minus the burnt fees divided by [10^9], nine digits after
    the point; the text is the exact decimal expansion when the gas used is
    below [2^63] and the burnt fees are below [2^34 * 10^9]. *)
Theorem empty_block slotId t block t' :
  resolveBlock w c ctx slotId t = (Some (ok block), t') ->
  Transactions block = [] ->
  GetBlockRewardAndStatusBySlot w c ctx slotId t
  = (Some (ok (rewardAsText
                 (0 - BaseFee block * BigInt.int64_of_uint64 (GasUsed block)),
               "vanilla")), t')
  /\ isFixed 9 (rewardAsText
                  (0 - BaseFee block * BigInt.int64_of_uint64 (GasUsed block)))
     = true
  /\ (0 <= GasUsed block < 2 ^ 63 ->
      Z.abs (BaseFee block * GasUsed block) < 2 ^ 34 * 10 ^ 9 ->
      rewardAsText (0 - BaseFee block * BigInt.int64_of_uint64 (GasUsed block))
      = fixed9 (0 - BaseFee block * GasUsed block)).
Proof.
  intros H He. split; [|split].
  - rewrite query_split, (bind_run _ _ _ _ _ H), He. reflexivity.
  - apply rewardAsText_fixed.
  - intros Hg Hr. rewrite (int64_small _ Hg).
    apply rewardAsText_exact, small_is_exact. lia.
Qed.

End Reward.

(** **** On the sample blocks *)



(** In the sample block the second transaction's declared price 50 exceeds
    three times the base fee 10. *)
Lemma classification_witness :
  exists reward t'',
    GetBlockRewardAndStatusBySlot Sample.w1 Sample.client Background "4700013" []
    = (Some (ok (reward, "mev")), t'').
Proof.
  destruct (classification Sample.w1 Sample.client Background "4700013" []
              Sample.block1 _ eq_refl)
    as (reward & status & t'' & Hq & [_ Hmev] & _).
  exists reward, t''. rewrite Hq, Hmev; [reflexivity|].
  apply Exists_cons_tl, Exists_cons_hd. vm_compute. reflexivity.
Defined.

(** In the sample block the first transaction has a receipt, the second
    has none. *)
Lemma receipt_fallback_witness :
  costOf Sample.w1 Sample.client Background Sample.tx1 = 12 * 21000
  /\ costOf Sample.w1 Sample.client Background Sample.tx2 = 50 * 30000 + 0 * 0 + 7.
Proof.
  destruct (receipt_fallback Sample.w1 Sample.client Background "4700013" []
              Sample.block1 _ eq_refl) as [_ Hall].
  split.
  - apply (Hall Sample.tx1 (or_introl eq_refl)). vm_compute.
    split; [discriminate|reflexivity].
  - apply (Hall Sample.tx2 (or_intror (or_introl eq_refl))).
Defined.

(** C3 (violated by the code). For a transaction whose receipt fetch fails
    the claim takes the declared gas price times the gas limit as its
    cost. The code takes [tx.Cost()], which adds the value the transaction
    transfers to that product, although the value is no fee and the
    receipt path counts the fee alone. In the sample block the second
    transaction (gas price 50, gas limit 30000, value 7) has no receipt: it
    is counted with 1500007 instead of 1500000, and the reward returned is
    0.001752007 instead of 0.001752000; the first transaction has a
    receipt and is counted with its fee, 12 * 21000. *)
Theorem receipt_fallback_counts_value :
  fst (resolveBlock Sample.w1 Sample.client Background "4700013" [])
  = Some (ok Sample.block1)
  /\ In Sample.tx2 (Transactions Sample.block1)
  /\ receiptOutcome Sample.w1 Sample.client Background (TxHash Sample.tx2)
     = err (OtherError "not found")
  /\ GasPrice Sample.tx2 * Gas Sample.tx2 = 1500000
  /\ Value Sample.tx2 = 7
  /\ costOf Sample.w1 Sample.client Background Sample.tx2 = 1500007
  /\ costOf Sample.w1 Sample.client Background Sample.tx2
     <> GasPrice Sample.tx2 * Gas Sample.tx2
  /\ costOf Sample.w1 Sample.client Background Sample.tx1 = 12 * 21000
  /\ fst (GetBlockRewardAndStatusBySlot Sample.w1 Sample.client Background
            "4700013" [])
     = Some (ok ("0.001752007", "mev"))
  /\ rewardAsText (12 * 21000 + GasPrice Sample.tx2 * Gas Sample.tx2
                   - BaseFee Sample.block1 * GasUsed Sample.block1)
     = "0.001752000".
Proof.
  repeat split; try (vm_compute; reflexivity).
  - right. left. reflexivity.
  - vm_compute. discriminate.
Qed.

(** An empty block with base fee 7 and gas used 30000. *)
Lemma empty_block_witness :
  fst (GetBlockRewardAndStatusBySlot Sample.wEmpty Sample.client Background
         "4700013" [])
  = Some (ok ("-0.000210000", "vanilla")).
Proof.
  destruct (empty_block Sample.wEmpty Sample.client Background "4700013" []
              Sample.blockEmpty _ eq_refl eq_refl) as (Hq & _ & Hx).
  rewrite Hq. cbn [fst]. rewrite Hx.
  - reflexivity.
  - vm_compute. split; [discriminate|reflexivity].
  - vm_compute. reflexivity.
Defined.

(** An empty block whose burnt fees exceed the precision of the float
    quotient. *)
Lemma empty_block_counterexample :
  resolveBlock Sample.wEmptyBig Sample.client Background "4700013" []
  = (Some (ok Sample.blockEmptyBig),
     snd (resolveBlock Sample.wEmptyBig Sample.client Background "4700013" []))
  /\ Transactions Sample.blockEmptyBig = []
  /\ fst (GetBlockRewardAndStatusBySlot Sample.wEmptyBig Sample.client
            Background "4700013" [])
     = Some (ok ("-17179869184.000004999", "vanilla"))
  /\ fixed9 (0 - BaseFee Sample.blockEmptyBig * GasUsed Sample.blockEmptyBig)
     = "-17179869184.000005000"
  /\ fst (GetBlockRewardAndStatusBySlot Sample.wEmptyBig Sample.client
            Background "4700013" [])
     <> Some (ok (fixed9 (0 - BaseFee Sample.blockEmptyBig
                            * GasUsed Sample.blockEmptyBig), "vanilla")).
Proof.
  repeat split; try (vm_compute; reflexivity).
  vm_compute. discriminate.
Qed.

(** *** Reordering *)

Lemma totalCost_perm w c ctx txs txs' :
  Permutation txs txs' -> totalCost w c ctx txs = totalCost w c ctx txs'.
Proof.
  induction 1 as [|tx l l' _ IH|x y l|l l' l'' _ IH1 _ IH2]; simpl; lia.
Qed.

Lemma existsb_perm {A} (f : A -> bool) l l' :
  Permutation l l' -> existsb f l = existsb f l'.
Proof.
  induction 1 as [|x l l' _ IH|x y l|l l' l'' _ IH1 _ IH2]; simpl.
  - reflexivity.
  - now rewrite IH.
  - now destruct (f x), (f y).
  - congruence.
Qed.

Lemma totalCost_ext w w' c ctx txs :
  (forall tx, In tx txs ->
     receiptOutcome w c ctx (TxHash tx) = receiptOutcome w' c ctx (TxHash tx)) ->
  totalCost w c ctx txs = totalCost w' c ctx txs.
Proof.
  induction txs as [|tx rest IH]; intros H; simpl; [reflexivity|].
  rewrite IH by (intros; apply H; now right).
  unfold costOf. now rewrite (H tx (or_introl eq_refl)).
Qed.

Lemma existsb_exceeds_ext w w' c ctx baseFee txs :
  (forall tx, In tx txs ->
     receiptOutcome w c ctx (TxHash tx) = receiptOutcome w' c ctx (TxHash tx)) ->
  existsb (fun tx => exceeds baseFee (priceOf w c ctx tx)) txs
  = existsb (fun tx => exceeds baseFee (priceOf w' c ctx tx)) txs.
Proof.
  induction txs as [|tx rest IH]; intros H; simpl; [reflexivity|].
  rewrite IH by (intros; apply H; now right).
  unfold priceOf. now rewrite (H tx (or_introl eq_refl)).
Qed.

(** C5. Two resolved blocks with the same base fee and gas used whose
    transaction sequences are permutations of each other, every
    transaction keeping its receipt outcome, yield the same reward text and
    the same status. *)
Theorem reordering w w' c ctx slotId t1 t2 block block' t1' t2' :
  resolveBlock w c ctx slotId t1 = (Some (ok block), t1') ->
  resolveBlock w' c ctx slotId t2 = (Some (ok block'), t2') ->
  BaseFee block = BaseFee block' ->
  GasUsed block = GasUsed block' ->
  Permutation (Transactions block) (Transactions block') ->
  (forall tx, In tx (Transactions block) ->
     receiptOutcome w c ctx (TxHash tx) = receiptOutcome w' c ctx (TxHash tx)) ->
  exists reward status,
    fst (GetBlockRewardAndStatusBySlot w c ctx slotId t1)
    = Some (ok (reward, status))
    /\ fst (GetBlockRewardAndStatusBySlot w' c ctx slotId t2)
       = Some (ok (reward, status)).
Proof.
  intros H H' Hb Hg Hp Hr.
  destruct (query_resolved _ _ _ _ _ _ _ H) as [u Hq].
  destruct (query_resolved _ _ _ _ _ _ _ H') as [u' Hq'].
  rewrite Hq, Hq'. eexists _, _. split; [reflexivity|]. cbn [fst].
  unfold netReward.
  rewrite <- Hb, <- Hg.
  rewrite <- (totalCost_perm w' c ctx _ _ Hp).
  rewrite <- (existsb_perm _ _ _ Hp).
  rewrite <- (totalCost_ext w w' c ctx _ Hr).
  rewrite <- (existsb_exceeds_ext w w' c ctx _ _ Hr).
  reflexivity.
Qed.

(** The sample block and the same block with its two transactions
    swapped. *)
Lemma reordering_witness :
  exists reward status,
    fst (GetBlockRewardAndStatusBySlot Sample.w1 Sample.client Background
           "4700013" [])
    = Some (ok (reward, status))
    /\ fst (GetBlockRewardAndStatusBySlot Sample.w1' Sample.client Background
              "4700013" [])
       = Some (ok (reward, status)).
Proof.
  apply (reordering Sample.w1 Sample.w1' Sample.client Background "4700013"
           [] [] Sample.block1 Sample.block1' _ _ eq_refl eq_refl eq_refl eq_refl).
  - apply perm_swap.
  - intros tx _. reflexivity.
Defined.

(** *** The REST layer *)

Lemma sendAPIRequest_bad_request {A} w requestUrl requestName
    (unmarshal : string -> res A) t :
  answered w requestUrl StatusBadRequest ->
  sendAPIRequest w requestUrl requestName unmarshal t
  = (Some (err (SlotMissingError "Slot is not found")),
     restRequest requestUrl :: t).
Proof.
  intros (Hn & Hw & resp & body & Ht & Hb & Hs).
  unfold sendAPIRequest, RoundTrip, bind, sent, ret.
  fold (restRequest requestUrl).
  now rewrite Hn, Hw, Ht, Hb, Hs.
Qed.

Lemma sendAPIRequest_not_found {A} w requestUrl requestName
    (unmarshal : string -> res A) t :
  answered w requestUrl StatusNotFound ->
  sendAPIRequest w requestUrl requestName unmarshal t
  = (Some (err (FutureSlotError "Slot is in the future")),
     restRequest requestUrl :: t).
Proof.
  intros (Hn & Hw & resp & body & Ht & Hb & Hs).
  unfold sendAPIRequest, RoundTrip, bind, sent, ret.
  fold (restRequest requestUrl).
  now rewrite Hn, Hw, Ht, Hb, Hs.
Qed.

(** A REST call never panics, and sends at most its own request, under
    the background context. *)
Lemma sendAPIRequest_trace {A} w requestUrl requestName
    (unmarshal : string -> res A) t :
  exists r,
    sendAPIRequest w requestUrl requestName unmarshal t = (Some r, t)
    \/ sendAPIRequest w requestUrl requestName unmarshal t
       = (Some r, restRequest requestUrl :: t).
Proof.
  unfold sendAPIRequest, RoundTrip, bind, sent, ret.
  fold (restRequest requestUrl).
  destruct (NewRequestError w requestUrl); [eauto|].
  destruct (Wait w Background); [eauto|].
  destruct (transport w _) as [resp|e]; [|eauto].
  destruct (ReadAll resp); [|eauto].
  destruct (StatusCode resp =? StatusNotFound); [eauto|].
  destruct (StatusCode resp =? StatusBadRequest); [eauto|].
  destruct (unmarshal _); eauto.
Qed.

(** *** Slot bounds *)

(** The floor check comes first: no request is sent. *)
Lemma reward_below_floor w c ctx slotId s t :
  BigInt.SetString slotId = Some s ->
  s <= BlocksAvailableAfterSlot ->
  GetBlockRewardAndStatusBySlot w c ctx slotId t
  = (Some (err (SlotMissingError "Slot is missing")), t).
Proof.
  intros Hs Hle. unfold GetBlockRewardAndStatusBySlot. rewrite Hs, Cmp_gt.
  destruct (Z.ltb_spec BlocksAvailableAfterSlot s); [lia|]. reflexivity.
Qed.

(** The future check follows the head fetch. *)
Lemma reward_above_head w c ctx slotId s t h t' :
  BigInt.SetString slotId = Some s ->
  BlocksAvailableAfterSlot < s ->
  getCurrentSlotId w c t = (Some h, t') ->
  h < s ->
  GetBlockRewardAndStatusBySlot w c ctx slotId t
  = (Some (err (FutureSlotError "Slot is in the future")), t').
Proof.
  intros Hs Hgt Hh Hlt. unfold GetBlockRewardAndStatusBySlot.
  rewrite Hs, Cmp_gt.
  destruct (Z.ltb_spec BlocksAvailableAfterSlot s); [|lia]. cbn [negb].
  rewrite (bind_run _ _ _ _ _ Hh), Cmp_gt.
  destruct (Z.ltb_spec h s); [|lia]. reflexivity.
Qed.

(** C4 (amended). For a slot string that parses to [s]: when [s] is at most
    the floor the reward query fails with [SlotMissing] ("Slot is missing")
    before any request is sent; when [s] is above the floor and above the
    head slot returned by the head fetch, it fails with [FutureSlot]. The
    duty query checks no floor: it fails with [SlotMissing] ("Slot is not
    found") when the node answers its sync-committee request with 400. *)
Theorem slot_bounds w c ctx slotId s :
  BigInt.SetString slotId = Some s ->
  (s <= BlocksAvailableAfterSlot ->
   forall t,
     GetBlockRewardAndStatusBySlot w c ctx slotId t
     = (Some (err (SlotMissingError "Slot is missing")), t))
  /\ (BlocksAvailableAfterSlot < s ->
      forall t h t',
        getCurrentSlotId w c t = (Some h, t') ->
        h < s ->
        GetBlockRewardAndStatusBySlot w c ctx slotId t
        = (Some (err (FutureSlotError "Slot is in the future")), t'))
  /\ (answered w (BaseUrl c ++ StatePath ++ slotId ++ "/sync_committees")
               StatusBadRequest ->
      forall t,
        GetSyncCommitteeDuties w c slotId t
        = (Some (err (SlotMissingError "Slot is not found")),
           restRequest (BaseUrl c ++ StatePath ++ slotId ++ "/sync_committees")
             :: t)).
Proof.
  intros Hs. split; [|split].
  - intros Hle t. now apply reward_below_floor with (s := s).
  - intros Hgt t h t' Hh Hlt. now apply reward_above_head with (s := s) (h := h).
  - intros Ha t. unfold GetSyncCommitteeDuties, getSyncCommitteesValidatorIndexes.
    unfold bind at 1 2.
    now rewrite (sendAPIRequest_bad_request _ _ _ _ _ Ha).
Qed.

(** Slot 5 is below the floor, slot 5000001 above the sample head
    5000000. *)
Lemma slot_bounds_witness :
  GetBlockRewardAndStatusBySlot Sample.w1 Sample.client Background "5" []
  = (Some (err (SlotMissingError "Slot is missing")), [])
  /\ fst (GetBlockRewardAndStatusBySlot Sample.w1 Sample.client Background
            "5000001" [])
     = Some (err (FutureSlotError "Slot is in the future")).
Proof.
  split.
  - apply (slot_bounds Sample.w1 Sample.client Background "5" 5 eq_refl).
    vm_compute. discriminate.
  - destruct (slot_bounds Sample.w1 Sample.client Background "5000001" 5000001
                eq_refl) as (_ & Hf & _).
    rewrite (Hf eq_refl [] 5000000 _ eq_refl eq_refl). reflexivity.
Defined.

(** The duty query for slot 5, below the floor, succeeds when the node
    answers. *)
Lemma slot_bounds_counterexample :
  BigInt.SetString "5" = Some 5
  /\ 5 <= BlocksAvailableAfterSlot
  /\ fst (GetSyncCommitteeDuties Sample.w1 Sample.client "5" [])
     = Some (ok ["0xaa"; "0xbb"])
  /\ fst (GetSyncCommitteeDuties Sample.w1 Sample.client "5" [])
     <> Some (err (SlotMissingError "Slot is missing"))
  /\ fst (GetSyncCommitteeDuties Sample.w1 Sample.client "5" [])
     <> Some (err (SlotMissingError "Slot is not found")).
Proof. repeat split; vm_compute; congruence. Qed.

(** *** The handlers *)

(** C6 (amended). In both handlers a [SlotMissing] failure yields 404 and a
    [FutureSlot] failure 400, each with the error's own message under
    ["error"], and every other failure yields 500 with a nil payload. The
    slot validator's messages are "Slot is missing" and "Slot is in the
    future"; the message of a [SlotMissing] that the REST layer derives
    from an upstream 400 is "Slot is not found", and a [FutureSlot] derived
    from an upstream 404 carries "Slot is in the future". *)
Theorem error_mapping w client c slotId t t' :
  (forall msg,
     GetBlockRewardAndStatusBySlot w client c slotId t
     = (Some (err (SlotMissingError msg)), t') ->
     GetBlockRewardHandler w client c slotId t
     = (Some (mkReply 404 (JObject [("error", msg)])), t'))
  /\ (forall msg,
        GetBlockRewardAndStatusBySlot w client c slotId t
        = (Some (err (FutureSlotError msg)), t') ->
        GetBlockRewardHandler w client c slotId t
        = (Some (mkReply 400 (JObject [("error", msg)])), t'))
  /\ (forall msg,
        GetBlockRewardAndStatusBySlot w client c slotId t
        = (Some (err (OtherError msg)), t') ->
        GetBlockRewardHandler w client c slotId t
        = (Some (mkReply 500 JNil), t'))
  /\ (forall msg,
        GetSyncCommitteeDuties w client slotId t
        = (Some (err (SlotMissingError msg)), t') ->
        GetSyncDutiesHandler w client c slotId t
        = (Some (mkReply 404 (JObject [("error", msg)])), t'))
  /\ (forall msg,
        GetSyncCommitteeDuties w client slotId t
        = (Some (err (FutureSlotError msg)), t') ->
        GetSyncDutiesHandler w client c slotId t
        = (Some (mkReply 400 (JObject [("error", msg)])), t'))
  /\ (forall msg,
        GetSyncCommitteeDuties w client slotId t
        = (Some (err (OtherError msg)), t') ->
        GetSyncDutiesHandler w client c slotId t
        = (Some (mkReply 500 JNil), t'))
  /\ (forall s,
        BigInt.SetString slotId = Some s ->
        s <= BlocksAvailableAfterSlot ->
        GetBlockRewardHandler w client c slotId t
        = (Some (mkReply 404 (JObject [("error", "Slot is missing")])), t))
  /\ (forall s h,
        BigInt.SetString slotId = Some s ->
        BlocksAvailableAfterSlot < s ->
        getCurrentSlotId w client t = (Some h, t') ->
        h < s ->
        GetBlockRewardHandler w client c slotId t
        = (Some (mkReply 400 (JObject [("error", "Slot is in the future")])),
           t'))
  /\ (forall A requestUrl requestName (unmarshal : string -> res A) u,
        answered w requestUrl StatusBadRequest ->
        sendAPIRequest w requestUrl requestName unmarshal u
        = (Some (err (SlotMissingError "Slot is not found")),
           restRequest requestUrl :: u))
  /\ (forall A requestUrl requestName (unmarshal : string -> res A) u,
        answered w requestUrl StatusNotFound ->
        sendAPIRequest w requestUrl requestName unmarshal u
        = (Some (err (FutureSlotError "Slot is in the future")),
           restRequest requestUrl :: u)).
Proof.
  unfold GetBlockRewardHandler, GetSyncDutiesHandler.
  repeat split; intros.
  1-6: now rewrite (bind_run _ _ _ _ _ H).
  - now rewrite (bind_run _ _ _ _ _
                   (reward_below_floor w client c slotId s t H H0)).
  - now rewrite (bind_run _ _ _ _ _
                   (reward_above_head w client c slotId s t h t' H H0 H1 H2)).
  - now apply sendAPIRequest_bad_request.
  - now apply sendAPIRequest_not_found.
Qed.

(** The duty handler when the node answers 400 and when it answers 404,
    and the reward handler below the floor. *)
Lemma error_mapping_witness :
  fst (GetSyncDutiesHandler Sample.wBadRequest Sample.client Background "5" [])
  = Some (mkReply 404 (JObject [("error", "Slot is not found")]))
  /\ fst (GetSyncDutiesHandler Sample.wNotFound Sample.client Background "5" [])
     = Some (mkReply 400 (JObject [("error", "Slot is in the future")]))
  /\ fst (GetBlockRewardHandler Sample.w1 Sample.client Background "1" [])
     = Some (mkReply 404 (JObject [("error", "Slot is missing")])).
Proof.
  split; [|split].
  - destruct (error_mapping Sample.wBadRequest Sample.client Background "5" []
                (snd (GetSyncCommitteeDuties Sample.wBadRequest Sample.client
                        "5" [])))
      as (_ & _ & _ & H & _).
    now rewrite (H "Slot is not found" eq_refl).
  - destruct (error_mapping Sample.wNotFound Sample.client Background "5" []
                (snd (GetSyncCommitteeDuties Sample.wNotFound Sample.client
                        "5" [])))
      as (_ & _ & _ & _ & H & _).
    now rewrite (H "Slot is in the future" eq_refl).
  - destruct (error_mapping Sample.w1 Sample.client Background "1" [] [])
      as (_ & _ & _ & _ & _ & _ & H & _).
    rewrite (H 1 eq_refl); [reflexivity|]. vm_compute. discriminate.
Defined.

(** A [SlotMissing] failure of the duty query whose body is not
    [{"error": "Slot is missing"}]. *)
Lemma error_mapping_counterexample :
  fst (GetSyncCommitteeDuties Sample.wBadRequest Sample.client "5" [])
  = Some (err (SlotMissingError "Slot is not found"))
  /\ fst (GetSyncDutiesHandler Sample.wBadRequest Sample.client Background
            "5" [])
     = Some (mkReply 404 (JObject [("error", "Slot is not found")]))
  /\ fst (GetSyncDutiesHandler Sample.wBadRequest Sample.client Background
            "5" [])
     <> Some (mkReply 404 (JObject [("error", "Slot is missing")])).
Proof.
  repeat split; try (vm_compute; reflexivity).
  vm_compute. discriminate.
Qed.

(** *** The current head *)

(** What [getCurrentSlotId] returns, by the outcome of its request. *)
Lemma getCurrentSlotId_cases w c t :
  let url := BaseUrl c ++ "/eth/v1/beacon/headers" in
  forall r t',
    sendAPIRequest w url "current slot id" (unmarshalHeader w) t = (Some r, t') ->
    getCurrentSlotId w c t
    = match r with
      | err _ => (Some 0, t')
      | ok header =>
          match Slots header with
          | [] => (None, t')
          | slot :: _ =>
              match BigInt.SetString slot with
              | None => (Some 0, t')
              | Some slotAsInt => (Some slotAsInt, t')
              end
          end
      end.
Proof.
  intros url r t' H. unfold getCurrentSlotId. fold url.
  rewrite (bind_run _ _ _ _ _ H).
  destruct r as [header|e]; [|reflexivity].
  destruct (Slots header) as [|slot rest]; [reflexivity|].
  now destruct (BigInt.SetString slot).
Qed.

(** C7 (violated by the code). [getCurrentSlotId] is meant never to fail:
    it returns zero when its request fails and when the slot string does
    not parse. But when the head response decodes to an empty data list it
    panics on [header.Data[0]] instead of returning zero, and the reward
    query panics with it. *)
Theorem current_head_empty_data_panics :
  getCurrentSlotId Sample.wNoHead Sample.client []
  = (None, [restRequest "http://node/eth/v1/beacon/headers"])
  /\ GetBlockRewardAndStatusBySlot Sample.wNoHead Sample.client Background
       "4700013" []
     = (None, [restRequest "http://node/eth/v1/beacon/headers"]).
Proof. split; vm_compute; reflexivity. Qed.

(** *** Parsing the slot *)

Lemma digit_of_isDigit (c : ascii) :
  match BigInt.digit_of c with
  | Some d => isDigit c = true /\ 0 <= d <= 9
  | None => isDigit c = false
  end.
Proof.
  unfold BigInt.digit_of, isDigit.
  destruct (Z.leb_spec 48 (Z.of_nat (nat_of_ascii c)));
    destruct (Z.leb_spec (Z.of_nat (nat_of_ascii c)) 57); simpl; auto.
  split; [reflexivity|lia].
Qed.

(** The digit loop fails exactly on a non-digit or on no digit at all, and
    otherwise yields a number that is not below its accumulator's sign. *)
Lemma scan_spec (s : string) :
  forall acc count,
    match BigInt.scan s acc count with
    | Some n => allDigits s = true
                /\ (count = true \/ s <> "")
                /\ (0 <= acc -> 0 <= n)
    | None => allDigits s = false \/ (s = "" /\ count = false)
    end.
Proof.
  induction s as [|c s IH]; intros acc count; cbn [BigInt.scan allDigits].
  - destruct count; auto.
  - pose proof (digit_of_isDigit c) as D.
    destruct (BigInt.digit_of c) as [d|].
    + destruct D as [-> Hd]. specialize (IH (10 * acc + d) true).
      destruct (BigInt.scan s (10 * acc + d) true) as [n|].
      * destruct IH as (Ha & _ & Hn). split; [exact Ha|].
        split; [right; discriminate|]. intros. apply Hn. lia.
      * destruct IH as [Ha|[_ Hc]]; [now left|discriminate].
    + rewrite D. now left.
Qed.

Lemma scan_literal (s : string) :
  isNonNegativeLiteral s = true ->
  exists n, BigInt.scan s 0 false = Some n /\ 0 <= n.
Proof.
  intros H. pose proof (scan_spec s 0 false) as S.
  destruct (BigInt.scan s 0 false) as [n|].
  - exists n. split; [reflexivity|]. apply S. lia.
  - exfalso. destruct s as [|c s]; [discriminate|].
    unfold isNonNegativeLiteral in H.
    destruct S as [S|[S _]]; [congruence|discriminate].
Qed.

Lemma scan_not_literal (s : string) :
  isNonNegativeLiteral s = false -> BigInt.scan s 0 false = None.
Proof.
  intros H. pose proof (scan_spec s 0 false) as S.
  destruct (BigInt.scan s 0 false) as [n|]; [|reflexivity].
  destruct S as (Ha & [Hc|Hs] & _); [discriminate|].
  destruct s as [|c s]; [congruence|].
  unfold isNonNegativeLiteral in H. congruence.
Qed.

Lemma SetString_not_literal (s : string) :
  isIntegerLiteral s = false -> BigInt.SetString s = None.
Proof.
  unfold isIntegerLiteral, BigInt.SetString. intros H.
  destruct s as [|c rest]; [reflexivity|].
  destruct (Ascii.eqb_spec c "-") as [->|Hm].
  { now rewrite (scan_not_literal rest H). }
  destruct (Ascii.eqb_spec c "+") as [->|Hp].
  { now rewrite (scan_not_literal rest H). }
  assert (E : isNonNegativeLiteral (String c rest) = false).
  { destruct c as [[] [] [] [] [] [] [] []]; try exact H; congruence. }
  rewrite <- (scan_not_literal _ E).
  destruct c as [[] [] [] [] [] [] [] []]; try reflexivity; congruence.
Qed.

(** C8 (amended). A slot string that is not an optionally signed decimal
    integer literal fails with the generic parse error before any bound
    check and any request; a negative integer literal parses and fails with
    [SlotMissing], again before any request. *)
Theorem slot_parsing w c ctx slotId t :
  (isIntegerLiteral slotId = false ->
   GetBlockRewardAndStatusBySlot w c ctx slotId t
   = (Some (err (OtherError "can not convert slotId to bigInt")), t))
  /\ (forall digits,
        slotId = "-" ++ digits ->
        isNonNegativeLiteral digits = true ->
        GetBlockRewardAndStatusBySlot w c ctx slotId t
        = (Some (err (SlotMissingError "Slot is missing")), t)).
Proof.
  unfold GetBlockRewardAndStatusBySlot. split.
  - intros H. now rewrite (SetString_not_literal _ H).
  - intros digits -> H. destruct (scan_literal digits H) as (n & Hn & Hpos).
    change (BigInt.SetString ("-" ++ digits))
      with (option_map Z.opp (BigInt.scan digits 0 false)).
    rewrite Hn. cbn [option_map]. rewrite Cmp_gt.
    destruct (Z.ltb_spec BlocksAvailableAfterSlot (- n)); [|reflexivity].
    unfold BlocksAvailableAfterSlot in *. lia.
Qed.

(** A malformed slot, and a negative one. *)
Lemma slot_parsing_witness :
  GetBlockRewardAndStatusBySlot Sample.w1 Sample.client Background "47x" []
  = (Some (err (OtherError "can not convert slotId to bigInt")), [])
  /\ GetBlockRewardAndStatusBySlot Sample.w1 Sample.client Background "-5" []
     = (Some (err (SlotMissingError "Slot is missing")), []).
Proof.
  split.
  - apply (slot_parsing Sample.w1 Sample.client Background "47x" []).
    reflexivity.
  - apply (slot_parsing Sample.w1 Sample.client Background "-5" [] ) with (digits := "5");
      reflexivity.
Defined.

(** The slot ["-5"] is no non-negative literal, and yet the query fails
    with [SlotMissing], not with the parse error. *)
Lemma slot_parsing_counterexample :
  isNonNegativeLiteral "-5" = false
  /\ GetBlockRewardAndStatusBySlot Sample.w1 Sample.client Background "-5" []
     = (Some (err (SlotMissingError "Slot is missing")), [])
  /\ GetBlockRewardAndStatusBySlot Sample.w1 Sample.client Background "-5" []
     <> (Some (err (OtherError "can not convert slotId to bigInt")), []).
Proof.
  repeat split; try (vm_compute; reflexivity).
  vm_compute. discriminate.
Qed.

(** *** The rate limiter *)

(** The requests of the duty query are REST requests: all of them go out
    under the background context. *)
Lemma duties_requests_background w c slotId t :
  exists sentReqs,
    snd (GetSyncCommitteeDuties w c slotId t) = (sentReqs ++ t)%list
    /\ Forall (fun req => Ctx req = Background) sentReqs.
Proof.
  unfold GetSyncCommitteeDuties, getSyncCommitteesValidatorIndexes,
    getPubKeysOfSyncCommittees.
  set (url1 := BaseUrl c ++ StatePath ++ slotId ++ "/sync_committees").
  unfold bind at 1 2.
  destruct (sendAPIRequest_trace w url1 "sync committees"
              (unmarshalSyncCommittees w) t) as [r [-> | ->]];
    (destruct r as [response|e];
     [|unfold ret; cbn [snd];
       first [now exists [] | now exists [restRequest url1]; split; [|repeat constructor]]]).
  - unfold ret, bind.
    match goal with
    | |- context [sendAPIRequest w ?u ?n ?d t] =>
        destruct (sendAPIRequest_trace w u n d t) as [r [-> | ->]]
    end; destruct r; cbn [snd];
      first [now exists [] | eexists [_]; split; [reflexivity|repeat constructor]].
  - unfold ret, bind.
    match goal with
    | |- context [sendAPIRequest w ?u ?n ?d (?q :: t)] =>
        destruct (sendAPIRequest_trace w u n d (q :: t)) as [r [-> | ->]]
    end; destruct r; cbn [snd];
      first [ eexists [_]; split; [reflexivity|repeat constructor]
            | eexists [_; _]; split; [reflexivity|repeat constructor]].
Qed.

(** *** The limiter and the contexts of the requests *)

Lemma adds_ret {A} P (a : A) : adds P (ret a).
Proof. intros t. now exists []. Qed.

Lemma adds_panic {A} P : adds P (@panic A).
Proof. intros t. now exists []. Qed.

Lemma adds_bind {A B} P (m : M A) (k : A -> M B) :
  adds P m -> (forall a, adds P (k a)) -> adds P (bind m k).
Proof.
  intros Hm Hk t. unfold bind.
  destruct (Hm t) as (s1 & E1 & F1). destruct (m t) as [[a|] t1]; cbn [snd] in *.
  - destruct (Hk a t1) as (s2 & E2 & F2). exists (s2 ++ s1)%list.
    rewrite E2, E1, app_assoc. split; [reflexivity|]. now apply Forall_app.
  - now exists s1.
Qed.

Lemma adds_RoundTrip P w req : P req -> adds P (RoundTrip w req).
Proof.
  intros H t. unfold RoundTrip, bind, sent, ret.
  destruct (Wait w Background); [now exists []|].
  exists [req]. split; [reflexivity|]. now constructor.
Qed.

Lemma adds_sendAPIRequest {A} P w requestUrl requestName
    (unmarshal : string -> res A) :
  P (restRequest requestUrl) ->
  adds P (sendAPIRequest w requestUrl requestName unmarshal).
Proof.
  intros H. unfold sendAPIRequest.
  destruct (NewRequestError w requestUrl); [apply adds_ret|].
  apply adds_bind; [now apply adds_RoundTrip|].
  intros [resp|e]; [|apply adds_ret].
  destruct (ReadAll resp); [|apply adds_ret].
  destruct (_ =? _); [apply adds_ret|].
  destruct (_ =? _); [apply adds_ret|].
  destruct (unmarshal _); apply adds_ret.
Qed.

Lemma restOrCall_rest c ctx requestUrl :
  restOrCall c ctx (restRequest requestUrl).
Proof. left. now exists requestUrl. Qed.

(** Every request of the reward query is a REST request under the
    background context or a call of the execution client under the
    caller's. *)
Lemma reward_requests_contexts w c ctx slotId :
  adds (restOrCall c ctx) (GetBlockRewardAndStatusBySlot w c ctx slotId).
Proof.
  unfold GetBlockRewardAndStatusBySlot.
  destruct (BigInt.SetString slotId) as [s|]; [|apply adds_ret].
  destruct (negb _); [apply adds_ret|].
  apply adds_bind.
  { unfold getCurrentSlotId. apply adds_bind.
    - apply adds_sendAPIRequest, restOrCall_rest.
    - intros [header|e]; [|apply adds_ret].
      destruct (Slots header); [apply adds_panic|].
      destruct (BigInt.SetString _); apply adds_ret. }
  intros h. destruct (_ =? _); [apply adds_ret|].
  apply adds_bind.
  { unfold getBlockHash. apply adds_bind.
    - apply adds_sendAPIRequest, restOrCall_rest.
    - intros [detail|e]; apply adds_ret. }
  intros [hash|e]; [|apply adds_ret].
  apply adds_bind.
  { unfold BlockByHash. apply adds_bind.
    - apply adds_RoundTrip. right. left. now exists hash.
    - intros [resp|e]; apply adds_ret. }
  intros [block|e]; [|apply adds_ret].
  apply adds_bind.
  - generalize (0, "vanilla").
    induction (Transactions block) as [|tx rest IH]; intros acc;
      cbn [rewardLoop]; [apply adds_ret|].
    apply adds_bind; [|intros r; apply IH].
    unfold TransactionReceipt. apply adds_bind.
    + apply adds_RoundTrip. right. right. now exists (TxHash tx).
    + intros [resp|e]; apply adds_ret.
  - intros [txCosts status]. apply adds_ret.
Qed.

(** Only the background wait of the limiter matters to a round trip. *)
Lemma RoundTrip_withWait w wait req :
  wait Background = Wait w Background ->
  RoundTrip (withWait w wait) req = RoundTrip w req.
Proof.
  intros H. unfold RoundTrip. cbn [Wait withWait transport]. now rewrite H.
Qed.

Lemma sendAPIRequest_withWait {A} w wait requestUrl requestName
    (unmarshal : string -> res A) :
  wait Background = Wait w Background ->
  sendAPIRequest (withWait w wait) requestUrl requestName unmarshal
  = sendAPIRequest w requestUrl requestName unmarshal.
Proof.
  intros H. unfold sendAPIRequest. cbn [NewRequestError withWait].
  now rewrite (RoundTrip_withWait w wait _ H).
Qed.

Lemma bind_ext {A B} (m m' : M A) (k k' : A -> M B) t :
  m t = m' t -> (forall a t', k a t' = k' a t') -> bind m k t = bind m' k' t.
Proof.
  intros Hm Hk. unfold bind. rewrite Hm.
  destruct (m' t) as [[a|] t']; [apply Hk|reflexivity].
Qed.

Lemma getCurrentSlotId_withWait w wait c :
  wait Background = Wait w Background ->
  getCurrentSlotId (withWait w wait) c = getCurrentSlotId w c.
Proof.
  intros H. unfold getCurrentSlotId.
  now rewrite (sendAPIRequest_withWait w wait _ _ _ H).
Qed.

Lemma getBlockHash_withWait w wait c slotId :
  wait Background = Wait w Background ->
  getBlockHash (withWait w wait) c slotId = getBlockHash w c slotId.
Proof.
  intros H. unfold getBlockHash.
  now rewrite (sendAPIRequest_withWait w wait _ _ _ H).
Qed.

Lemma BlockByHash_withWait w wait c ctx hash :
  wait Background = Wait w Background ->
  BlockByHash (withWait w wait) c ctx hash = BlockByHash w c ctx hash.
Proof.
  intros H. unfold BlockByHash. now rewrite (RoundTrip_withWait w wait _ H).
Qed.

Lemma TransactionReceipt_withWait w wait c ctx txHash :
  wait Background = Wait w Background ->
  TransactionReceipt (withWait w wait) c ctx txHash
  = TransactionReceipt w c ctx txHash.
Proof.
  intros H. unfold TransactionReceipt.
  now rewrite (RoundTrip_withWait w wait _ H).
Qed.

Lemma rewardLoop_withWait w wait c ctx baseFee txs :
  wait Background = Wait w Background ->
  forall acc t,
    rewardLoop (withWait w wait) c ctx baseFee txs acc t
    = rewardLoop w c ctx baseFee txs acc t.
Proof.
  intros H. induction txs as [|tx rest IH]; intros acc t; [reflexivity|].
  cbn [rewardLoop]. apply bind_ext.
  - now rewrite (TransactionReceipt_withWait w wait c ctx _ H).
  - intros r t'. apply IH.
Qed.

(** The queries do not depend on what the limiter makes of any context but
    the background one. *)
Lemma reward_withWait w wait c ctx slotId t :
  wait Background = Wait w Background ->
  GetBlockRewardAndStatusBySlot (withWait w wait) c ctx slotId t
  = GetBlockRewardAndStatusBySlot w c ctx slotId t.
Proof.
  intros H. unfold GetBlockRewardAndStatusBySlot.
  destruct (BigInt.SetString slotId) as [s|]; [|reflexivity].
  destruct (negb _); [reflexivity|].
  apply bind_ext; [now rewrite (getCurrentSlotId_withWait w wait c H)|].
  intros h t1. destruct (_ =? _); [reflexivity|].
  apply bind_ext; [now rewrite (getBlockHash_withWait w wait c slotId H)|].
  intros [hash|e] t2; [|reflexivity].
  apply bind_ext; [now rewrite (BlockByHash_withWait w wait c ctx hash H)|].
  intros [block|e] t3; [|reflexivity].
  apply bind_ext; [apply (rewardLoop_withWait w wait c ctx _ _ H)|].
  reflexivity.
Qed.

Lemma duties_withWait w wait c slotId t :
  wait Background = Wait w Background ->
  GetSyncCommitteeDuties (withWait w wait) c slotId t
  = GetSyncCommitteeDuties w c slotId t.
Proof.
  intros H. unfold GetSyncCommitteeDuties, getSyncCommitteesValidatorIndexes,
    getPubKeysOfSyncCommittees.
  apply bind_ext.
  { now rewrite (sendAPIRequest_withWait w wait _ _ _ H). }
  intros [indexes|e] t1; [|reflexivity].
  apply bind_ext; [|reflexivity].
  now rewrite (sendAPIRequest_withWait w wait _ _ _ H).
Qed.

(** C9 (amended). The token-bucket wait runs under the background context,
    not the caller's. A round trip is decided by what the limiter makes of
    the background context alone: once it grants that wait the request is
    handed to the wrapped transport, whatever context the request carries,
    and when it refuses, the round trip fails with its error and nothing is
    sent. What the limiter would make of any other context, a cancelled
    caller's context included, changes neither a round trip nor the reward
    query nor the duty query. The caller's context travels only with the
    block-fetch and receipt-fetch requests: every request of the reward
    query is a REST request under the background context or one of those
    two calls under the caller's context, and the requests of the duty
    query all carry the background context. *)
Theorem limiter_wait_ignores_caller w c ctx slotId t :
  (Wait w Background = None ->
   forall req, RoundTrip w req t = (Some (transport w req), req :: t))
  /\ (forall e,
        Wait w Background = Some e ->
        forall req, RoundTrip w req t = (Some (err e), t))
  /\ (forall wait,
        wait Background = Wait w Background ->
        (forall req, RoundTrip (withWait w wait) req t = RoundTrip w req t)
        /\ GetBlockRewardAndStatusBySlot (withWait w wait) c ctx slotId t
           = GetBlockRewardAndStatusBySlot w c ctx slotId t
        /\ GetSyncCommitteeDuties (withWait w wait) c slotId t
           = GetSyncCommitteeDuties w c slotId t)
  /\ (exists sentReqs,
        snd (GetBlockRewardAndStatusBySlot w c ctx slotId t)
        = (sentReqs ++ t)%list
        /\ Forall (restOrCall c ctx) sentReqs)
  /\ (exists sentReqs,
        snd (GetSyncCommitteeDuties w c slotId t) = (sentReqs ++ t)%list
        /\ Forall (fun req => Ctx req = Background) sentReqs).
Proof.
  split; [|split; [|split; [|split]]].
  - intros H req. unfold RoundTrip. now rewrite H.
  - intros e H req. unfold RoundTrip. now rewrite H.
  - intros wait H. split; [|split].
    + intros req. now rewrite (RoundTrip_withWait w wait req H).
    + now apply reward_withWait.
    + now apply duties_withWait.
  - apply reward_requests_contexts.
  - apply duties_requests_background.
Qed.

(** A block fetch under a cancelled caller context: the limiter would
    refuse that context, yet the request reaches the transport, which
    refuses it; and the duty query is the same under a limiter that refuses
    no context at all. *)
Lemma limiter_wait_ignores_caller_witness :
  Wait Sample.w1 (Caller true) = Some (OtherError "context canceled")
  /\ RoundTrip Sample.w1
       (rpcRequest Sample.client (Caller true) "eth_getBlockByHash" "0xb10c") []
     = (Some (err (OtherError "context canceled")),
        [rpcRequest Sample.client (Caller true) "eth_getBlockByHash" "0xb10c"])
  /\ GetBlockRewardAndStatusBySlot (withWait Sample.w1 (fun _ => None))
       Sample.client (Caller true) "4700013" []
     = GetBlockRewardAndStatusBySlot Sample.w1 Sample.client (Caller true)
         "4700013" [].
Proof.
  destruct (limiter_wait_ignores_caller Sample.w1 Sample.client (Caller true)
              "4700013" []) as (G & _ & N & _).
  split; [reflexivity|split].
  - apply (G eq_refl).
  - apply (N (fun _ => None) eq_refl).
Defined.

(** With a cancelled caller context, and a limiter and a transport that
    both refuse a cancelled context, the REST calls go through and the duty
    query answers. *)
Lemma limiter_wait_counterexample :
  Wait Sample.w1 (Caller true) = Some (OtherError "context canceled")
  /\ transport Sample.w1
       (rpcRequest Sample.client (Caller true) "eth_getBlockByHash" "0xb10c")
     = err (OtherError "context canceled")
  /\ fst (sendAPIRequest Sample.w1 "http://node/eth/v1/beacon/headers"
            "current slot id" (unmarshalHeader Sample.w1) [])
     = Some (ok {| Slots := ["5000000"] |})
  /\ fst (GetSyncDutiesHandler Sample.w1 Sample.client (Caller true)
            "5000000" [])
     = Some (mkReply 200 (JStrings ["0xaa"; "0xbb"])).
Proof. repeat split; vm_compute; reflexivity. Qed.

(** ** Further properties *)

(** *** More on the REST layer *)

(** A response with a readable body and a status other than 404 and 400 is
    decoded, whatever its status. *)
Lemma sendAPIRequest_served {A} w requestUrl requestName
    (unmarshal : string -> res A) body t :
  serves w requestUrl body ->
  sendAPIRequest w requestUrl requestName unmarshal t
  = (Some (unmarshal body), restRequest requestUrl :: t).
Proof.
  intros (Hn & Hw & resp & Ht & Hb & H404 & H400).
  unfold sendAPIRequest, RoundTrip, bind, sent, ret.
  rewrite Hn, Hw, Ht, Hb.
  destruct (Z.eqb_spec (StatusCode resp) StatusNotFound); [contradiction|].
  destruct (Z.eqb_spec (StatusCode resp) StatusBadRequest); [contradiction|].
  now destruct (unmarshal body).
Qed.

Lemma sendAPIRequest_limited {A} w requestUrl requestName
    (unmarshal : string -> res A) e t :
  Wait w Background = Some e ->
  exists e', sendAPIRequest w requestUrl requestName unmarshal t
             = (Some (err e'), t).
Proof.
  intros Hw. unfold sendAPIRequest, RoundTrip, bind, ret.
  destruct (NewRequestError w requestUrl) as [e1|]; [now exists e1|].
  rewrite Hw. now exists e.
Qed.

Lemma sendAPIRequest_limited_eq {A} w requestUrl requestName
    (unmarshal : string -> res A) e t :
  NewRequestError w requestUrl = None ->
  Wait w Background = Some e ->
  sendAPIRequest w requestUrl requestName unmarshal t = (Some (err e), t).
Proof.
  intros Hn Hw. unfold sendAPIRequest, RoundTrip, bind, ret.
  now rewrite Hn, Hw.
Qed.

(** *** The head fetch *)

Lemma getCurrentSlotId_error w c t e t' :
  sendAPIRequest w (BaseUrl c ++ "/eth/v1/beacon/headers") "current slot id"
    (unmarshalHeader w) t = (Some (err e), t') ->
  getCurrentSlotId w c t = (Some 0, t').
Proof. intros H. now rewrite (getCurrentSlotId_cases w c t _ _ H). Qed.

(** X1. The head fetch hides its failures as head slot 0, so for a slot
    above the floor the reward query answers [FutureSlot] ("Slot is in the
    future") whenever the head request fails, whatever the failure, and
    whenever the slot of the head response is no number; it stops after the
    head request. *)
Theorem head_failure_is_future w c ctx slotId s t :
  BigInt.SetString slotId = Some s ->
  BlocksAvailableAfterSlot < s ->
  (forall e t',
     sendAPIRequest w (BaseUrl c ++ "/eth/v1/beacon/headers") "current slot id"
       (unmarshalHeader w) t = (Some (err e), t') ->
     GetBlockRewardAndStatusBySlot w c ctx slotId t
     = (Some (err (FutureSlotError "Slot is in the future")), t'))
  /\ (forall header slot rest t',
        sendAPIRequest w (BaseUrl c ++ "/eth/v1/beacon/headers")
          "current slot id" (unmarshalHeader w) t = (Some (ok header), t') ->
        Slots header = slot :: rest ->
        BigInt.SetString slot = None ->
        GetBlockRewardAndStatusBySlot w c ctx slotId t
        = (Some (err (FutureSlotError "Slot is in the future")), t')).
Proof.
  intros Hs Hgt. unfold BlocksAvailableAfterSlot in Hgt. split.
  - intros e t' H.
    apply reward_above_head with (s := s) (h := 0); auto.
    + now apply getCurrentSlotId_error with (e := e).
    + lia.
  - intros header slot rest t' H Hsl Hp.
    apply reward_above_head with (s := s) (h := 0); auto; [|lia].
    rewrite (getCurrentSlotId_cases w c t _ _ H). cbv beta iota.
    now rewrite Hsl, Hp.
Qed.

(** The head request answered with 400, and a head slot that is no
    number. *)
Lemma head_failure_is_future_witness :
  GetBlockRewardAndStatusBySlot Sample.wBadRequest Sample.client Background
    "4700013" []
  = (Some (err (FutureSlotError "Slot is in the future")),
     [restRequest "http://node/eth/v1/beacon/headers"])
  /\ GetBlockRewardAndStatusBySlot Scenario.wBadHead Sample.client Background
       "4700013" []
     = (Some (err (FutureSlotError "Slot is in the future")),
        [restRequest "http://node/eth/v1/beacon/headers"]).
Proof.
  split.
  - destruct (head_failure_is_future Sample.wBadRequest Sample.client
                Background "4700013" 4700013 [] eq_refl eq_refl) as [H _].
    exact (H (SlotMissingError "Slot is not found")
             [restRequest "http://node/eth/v1/beacon/headers"] eq_refl).
  - destruct (head_failure_is_future Scenario.wBadHead Sample.client
                Background "4700013" 4700013 [] eq_refl eq_refl) as [_ H].
    exact (H {| Slots := ["head"] |} "head" []
             [restRequest "http://node/eth/v1/beacon/headers"]
             eq_refl eq_refl eq_refl).
Defined.

(** *** Panics *)


Lemma sendAPIRequest_total {A} w requestUrl requestName
    (unmarshal : string -> res A) t :
  exists r t', sendAPIRequest w requestUrl requestName unmarshal t = (Some r, t').
Proof.
  destruct (sendAPIRequest_trace w requestUrl requestName unmarshal t)
    as [r [H|H]]; eauto.
Qed.



(** **** With pointers that may be nil *)







(** With both pointers Nilable.present the query is the one above. *)
Lemma nilable_body_present baseFee tx r acc t :
  Nilable.rewardBody (Some baseFee) tx
    (match r with
     | ok receipt => ok (Nilable.ofReceipt receipt)
     | err e => err e
     end) acc t
  = (Some (rewardStep baseFee tx r acc), t).
Proof.
  destruct acc as [txCosts status].
  unfold Nilable.rewardBody, rewardStep, costAndPrice, Nilable.Mul, Nilable.Cmp, bind, ret.
  destruct r as [receipt|e]; reflexivity.
Qed.

Lemma nilable_loop_present w c ctx baseFee txs :
  forall acc t,
    Nilable.rewardLoop w (Nilable.present w) c ctx (Some baseFee) txs acc t
    = rewardLoop w c ctx baseFee txs acc t.
Proof.
  induction txs as [|tx rest IH]; intros acc t; [reflexivity|].
  cbn [Nilable.rewardLoop rewardLoop].
  unfold Nilable.TransactionReceipt, TransactionReceipt, RoundTrip.
  unfold bind, sent, ret. cbn [Nilable.decodeRawReceipt Nilable.present].
  destruct (Wait w Background); [|destruct (transport w _) as [resp|e]].
  - rewrite (nilable_body_present baseFee tx (err e) acc t). apply IH.
  - rewrite (nilable_body_present baseFee tx (decodeReceipt w resp) acc). apply IH.
  - rewrite (nilable_body_present baseFee tx (err e) acc). apply IH.
Qed.

(** With both pointers present in every block and receipt, the query is the
    one embedded above: [Block] and [Receipt] are the case of a node that
    sends [baseFeePerGas] and [effectiveGasPrice]. *)
Lemma nilable_present_agrees w c ctx slotId t :
  Nilable.GetBlockRewardAndStatusBySlot w (Nilable.present w) c ctx slotId t
  = GetBlockRewardAndStatusBySlot w c ctx slotId t.
Proof.
  unfold Nilable.GetBlockRewardAndStatusBySlot, GetBlockRewardAndStatusBySlot.
  destruct (BigInt.SetString slotId) as [s|]; [|reflexivity].
  destruct (negb _); [reflexivity|].
  apply bind_ext; [reflexivity|].
  intros h t1. destruct (_ =? _); [reflexivity|].
  apply bind_ext; [reflexivity|].
  intros [hash|e] t2; [|reflexivity].
  unfold Nilable.BlockByHash, BlockByHash.
  unfold bind at 1 2 5 6.
  destruct (RoundTrip w _ t2) as [[[resp|e]|] t3]; try reflexivity.
  unfold ret at 1 4. cbn [Nilable.decodeRawBlock Nilable.present].
  destruct (decodeBlock w resp) as [block|e]; [|reflexivity].
  cbn [Nilable.Mul Nilable.ofBlock Nilable.RawBaseFee Nilable.RawGasUsed
         Nilable.RawTransactions].
  unfold bind at 1. unfold ret at 1.
  apply bind_ext; [apply nilable_loop_present|].
  reflexivity.
Qed.



(** *** The sync-duty resolver *)

Lemma idParams_later (validatorIndexes : list string) :
  forall index endpoint,
    0 < index ->
    idParams index (index + Z.of_nat (List.length validatorIndexes))
      validatorIndexes endpoint
    = endpoint ++ joinIds validatorIndexes.
Proof.
  induction validatorIndexes as [|x rest IH]; intros index endpoint Hi.
  - cbn. now rewrite append_empty_r.
  - cbn [idParams]. destruct (Z.eqb_spec index 0) as [|_]; [lia|].
    destruct rest as [|y rest].
    + cbn [List.length idParams].
      destruct (Z.eqb_spec index (index + Z.of_nat 1 - 1)) as [_|N]; [|lia].
      reflexivity.
    + destruct (Z.eqb_spec index
                  (index + Z.of_nat (List.length (x :: y :: rest)) - 1))
        as [E|_]; [cbn [List.length] in E; lia|].
      cbn [negb].
      replace (index + Z.of_nat (List.length (x :: y :: rest)))
        with (index + 1 + Z.of_nat (List.length (y :: rest)))
        by (cbn [List.length]; lia).
      rewrite IH by lia.
      change (joinIds (x :: y :: rest))
        with ("id=" ++ x ++ "&" ++ joinIds (y :: rest)).
      now rewrite !append_assoc.
Qed.

(** The loop from index 0. *)
Lemma idParams_query (validatorIndexes : list string) (endpoint : string) :
  idParams 0 (Z.of_nat (List.length validatorIndexes)) validatorIndexes endpoint
  = endpoint ++ idQuery validatorIndexes.
Proof.
  destruct validatorIndexes as [|x rest].
  - cbn. now rewrite append_empty_r.
  - cbn [idParams]. change (0 =? 0) with true. cbv iota.
    destruct rest as [|y rest].
    + cbn. now rewrite !append_assoc.
    + destruct (Z.eqb_spec 0 (Z.of_nat (List.length (x :: y :: rest)) - 1))
        as [E|_]; [cbn [List.length] in E; lia|].
      cbn [negb].
      replace (Z.of_nat (List.length (x :: y :: rest)))
        with (0 + 1 + Z.of_nat (List.length (y :: rest)))
        by (cbn [List.length]; lia).
      rewrite idParams_later by lia.
      unfold idQuery.
      change (joinIds (x :: y :: rest))
        with ("id=" ++ x ++ "&" ++ joinIds (y :: rest)).
      now rewrite !append_assoc.
Qed.

(** X3. The loop over the validator indexes builds the query string
    [?id=i1&id=i2&...], with no trailing [&] and nothing at all for an empty
    list: the public-key fetch is one REST call to the validators URL of the
    slot followed by that query string, and returns the keys of the decoded
    response. *)
Theorem validators_url w c slotId validatorIndexes t :
  getPubKeysOfSyncCommittees w c slotId validatorIndexes t
  = match sendAPIRequest w
            (BaseUrl c ++ StatePath ++ slotId ++ "/validators"
               ++ idQuery validatorIndexes)
            "receive pubkeys of validators" (unmarshalValidators w) t with
    | (Some (ok response), t') => (Some (ok (Pubkeys response)), t')
    | (Some (err e), t') => (Some (err e), t')
    | (None, t') => (None, t')
    end.
Proof.
  unfold getPubKeysOfSyncCommittees. unfold bind at 1.
  rewrite idParams_query, !append_assoc.
  destruct (sendAPIRequest w _ _ _ t) as [[[response|e]|] t']; reflexivity.
Qed.

(** The query strings of no, one and two indexes. *)
Example idQuery_samples :
  idQuery [] = ""
  /\ idQuery ["7"] = "?id=7"
  /\ idQuery ["1"; "2"] = "?id=1&id=2".
Proof. repeat split. Qed.

(** X4. When the node serves both requests of the duty query (any status
    other than 404 and 400 counts, the status is not examined further) and
    both bodies decode, the query returns the public keys of the second
    response, having sent exactly the sync-committee request and then the
    validators request for the indexes of the first response. *)
Theorem duties_served w c slotId body1 body2 indexes keys t :
  serves w (BaseUrl c ++ StatePath ++ slotId ++ "/sync_committees") body1 ->
  unmarshalSyncCommittees w body1 = ok indexes ->
  serves w (BaseUrl c ++ StatePath ++ slotId ++ "/validators"
              ++ idQuery (Validators indexes)) body2 ->
  unmarshalValidators w body2 = ok keys ->
  GetSyncCommitteeDuties w c slotId t
  = (Some (ok (Pubkeys keys)),
     restRequest (BaseUrl c ++ StatePath ++ slotId ++ "/validators"
                    ++ idQuery (Validators indexes))
     :: restRequest (BaseUrl c ++ StatePath ++ slotId ++ "/sync_committees")
     :: t).
Proof.
  intros S1 D1 S2 D2.
  unfold GetSyncCommitteeDuties, getSyncCommitteesValidatorIndexes,
    getPubKeysOfSyncCommittees.
  unfold bind at 1 2.
  rewrite (sendAPIRequest_served _ _ _ _ _ _ S1), D1.
  unfold ret at 1. unfold bind at 1 2.
  rewrite idParams_query, !append_assoc.
  rewrite (sendAPIRequest_served _ _ _ _ _ _ S2), D2.
  reflexivity.
Qed.

(** The sample node: indexes 1 and 2, keys [0xaa] and [0xbb]. *)
Lemma duties_served_witness :
  GetSyncCommitteeDuties Sample.w1 Sample.client "5000000" []
  = (Some (ok ["0xaa"; "0xbb"]),
     [restRequest
        "http://node/eth/v1/beacon/states/5000000/validators?id=1&id=2";
      restRequest "http://node/eth/v1/beacon/states/5000000/sync_committees"]).
Proof.
  apply (duties_served Sample.w1 Sample.client "5000000"
           "http://node/eth/v1/beacon/states/5000000/sync_committees"
           "http://node/eth/v1/beacon/states/5000000/validators?id=1&id=2"
           {| Validators := ["1"; "2"] |} {| Pubkeys := ["0xaa"; "0xbb"] |} []).
  - repeat split. eexists. repeat split; vm_compute; discriminate.
  - reflexivity.
  - repeat split. eexists. repeat split; vm_compute; discriminate.
  - reflexivity.
Defined.

(** X5. When the sync-committee request of the duty query fails, the query
    fails with that same error and the validators request is never sent:
    at most the one request has gone out. *)
Theorem duties_first_failure w c slotId e t t' :
  sendAPIRequest w (BaseUrl c ++ StatePath ++ slotId ++ "/sync_committees")
    "sync committees" (unmarshalSyncCommittees w) t = (Some (err e), t') ->
  GetSyncCommitteeDuties w c slotId t = (Some (err e), t')
  /\ (t' = t
      \/ t' = restRequest (BaseUrl c ++ StatePath ++ slotId ++ "/sync_committees")
              :: t).
Proof.
  intros H. split.
  - unfold GetSyncCommitteeDuties, getSyncCommitteesValidatorIndexes.
    unfold bind at 1 2. now rewrite H.
  - destruct (sendAPIRequest_trace w
                (BaseUrl c ++ StatePath ++ slotId ++ "/sync_committees")
                "sync committees" (unmarshalSyncCommittees w) t) as [r [E|E]];
      rewrite E in H; injection H as _ <-; auto.
Qed.

(** The node answers every REST request with 400. *)
Lemma duties_first_failure_witness :
  GetSyncCommitteeDuties Sample.wBadRequest Sample.client "5000000" []
  = (Some (err (SlotMissingError "Slot is not found")),
     [restRequest "http://node/eth/v1/beacon/states/5000000/sync_committees"]).
Proof.
  apply (duties_first_failure Sample.wBadRequest Sample.client "5000000"
           (SlotMissingError "Slot is not found") []
           [restRequest
              "http://node/eth/v1/beacon/states/5000000/sync_committees"]).
  reflexivity.
Defined.

(** *** Failures and requests of the reward query *)

(** The reward query fails exactly as its steps up to the block fetch
    do. *)
Lemma query_fails_iff w c ctx slotId t e t' :
  GetBlockRewardAndStatusBySlot w c ctx slotId t = (Some (err e), t')
  <-> resolveBlock w c ctx slotId t = (Some (err e), t').
Proof.
  rewrite query_split. unfold bind at 1.
  destruct (resolveBlock w c ctx slotId t) as [[[block|e1]|] t1].
  - destruct (rewardLoop_run w c ctx (BaseFee block) (Transactions block)
                (0, "vanilla") t1) as [t2 Hl].
    rewrite (bind_run _ _ _ _ _ Hl). destruct (totals _ _ _ _ _ _).
    unfold ret. split; discriminate.
  - unfold ret. split; intros [= -> ->]; reflexivity.
  - split; discriminate.
Qed.

(** X6. For a slot between the floor and the head, the answer of the node
    to the block-detail request decides: a 400 makes the reward query fail
    with [SlotMissing] ("Slot is not found", not the "Slot is missing" of
    the floor check) and a 404 with [FutureSlot], although the slot is not
    above the head; in both cases the block-detail request is the last one
    sent. *)
Theorem reward_block_detail_status w c ctx slotId s h t t1 :
  BigInt.SetString slotId = Some s ->
  BlocksAvailableAfterSlot < s ->
  getCurrentSlotId w c t = (Some h, t1) ->
  s <= h ->
  (answered w (BaseUrl c ++ BlockDetailPath ++ slotId) StatusBadRequest ->
   GetBlockRewardAndStatusBySlot w c ctx slotId t
   = (Some (err (SlotMissingError "Slot is not found")),
      restRequest (BaseUrl c ++ BlockDetailPath ++ slotId) :: t1))
  /\ (answered w (BaseUrl c ++ BlockDetailPath ++ slotId) StatusNotFound ->
      GetBlockRewardAndStatusBySlot w c ctx slotId t
      = (Some (err (FutureSlotError "Slot is in the future")),
         restRequest (BaseUrl c ++ BlockDetailPath ++ slotId) :: t1)).
Proof.
  intros Hs Hgt Hh Hle.
  assert (E : forall e t2,
             sendAPIRequest w (BaseUrl c ++ BlockDetailPath ++ slotId)
               "beacon block detail" (unmarshalBlockDetail w) t1
             = (Some (err e), t2) ->
             GetBlockRewardAndStatusBySlot w c ctx slotId t = (Some (err e), t2)).
  { intros e t2 H. apply query_fails_iff. unfold resolveBlock.
    rewrite Hs, Cmp_gt.
    destruct (Z.ltb_spec BlocksAvailableAfterSlot s); [|lia]. cbn [negb].
    rewrite (bind_run _ _ _ _ _ Hh), Cmp_gt.
    destruct (Z.ltb_spec h s); [lia|].
    unfold getBlockHash. unfold bind at 1 2. now rewrite H. }
  split; intros A; apply E.
  - now apply sendAPIRequest_bad_request.
  - now apply sendAPIRequest_not_found.
Qed.

(** The head request is answered with 200 and the others with 400, or
    with 404. *)
Lemma reward_block_detail_status_witness :
  GetBlockRewardAndStatusBySlot (Scenario.worldBy 400) Sample.client Background
    "4700013" []
  = (Some (err (SlotMissingError "Slot is not found")),
     [restRequest "http://node/eth/v2/beacon/blocks/4700013";
      restRequest "http://node/eth/v1/beacon/headers"])
  /\ GetBlockRewardAndStatusBySlot (Scenario.worldBy 404) Sample.client
       Background "4700013" []
     = (Some (err (FutureSlotError "Slot is in the future")),
        [restRequest "http://node/eth/v2/beacon/blocks/4700013";
         restRequest "http://node/eth/v1/beacon/headers"]).
Proof.
  split.
  - destruct (reward_block_detail_status (Scenario.worldBy 400) Sample.client
                Background "4700013" 4700013 5000000 []
                [restRequest "http://node/eth/v1/beacon/headers"]
                eq_refl eq_refl eq_refl) as [H _].
    + vm_compute. discriminate.
    + apply H. repeat split. do 2 eexists. repeat split.
  - destruct (reward_block_detail_status (Scenario.worldBy 404) Sample.client
                Background "4700013" 4700013 5000000 []
                [restRequest "http://node/eth/v1/beacon/headers"]
                eq_refl eq_refl eq_refl) as [_ H].
    + vm_compute. discriminate.
    + apply H. repeat split. do 2 eexists. repeat split.
Defined.

Lemma sendAPIRequest_ok_trace {A} w requestUrl requestName
    (unmarshal : string -> res A) t v t' :
  sendAPIRequest w requestUrl requestName unmarshal t = (Some (ok v), t') ->
  t' = restRequest requestUrl :: t /\ Wait w Background = None.
Proof.
  unfold sendAPIRequest, RoundTrip, bind, sent, ret.
  destruct (NewRequestError w requestUrl); [discriminate|].
  destruct (Wait w Background); [discriminate|].
  destruct (transport w _) as [resp|e]; [|discriminate].
  destruct (ReadAll resp); [|discriminate].
  destruct (StatusCode resp =? StatusNotFound); [discriminate|].
  destruct (StatusCode resp =? StatusBadRequest); [discriminate|].
  destruct (unmarshal _); [|discriminate].
  intros [= _ <-]. auto.
Qed.

Lemma rewardLoop_trace w c ctx baseFee txs :
  Wait w Background = None ->
  forall acc t,
    rewardLoop w c ctx baseFee txs acc t
    = (Some (totals w c ctx baseFee txs acc),
       (rev (map (receiptRequest c ctx) txs) ++ t)%list).
Proof.
  intros Hw. induction txs as [|tx rest IH]; intros acc t; [reflexivity|].
  cbn [rewardLoop].
  assert (H : TransactionReceipt w c ctx (TxHash tx) t
              = (Some (receiptOutcome w c ctx (TxHash tx)),
                 receiptRequest c ctx tx :: t)).
  { unfold TransactionReceipt, receiptOutcome, RoundTrip, bind, sent, ret,
      receiptRequest.
    rewrite Hw. now destruct (transport w _). }
  rewrite (bind_run _ _ _ _ _ H), IH.
  cbn [map rev totals fold_left]. now rewrite <- app_assoc.
Qed.

(** The three requests of a successful resolution. *)
Lemma resolveBlock_trace w c ctx slotId t block t' :
  resolveBlock w c ctx slotId t = (Some (ok block), t') ->
  Wait w Background = None
  /\ exists hash,
       t' = rpcRequest c ctx "eth_getBlockByHash" hash
            :: restRequest (BaseUrl c ++ BlockDetailPath ++ slotId)
            :: restRequest (BaseUrl c ++ "/eth/v1/beacon/headers")
            :: t.
Proof.
  unfold resolveBlock.
  destruct (BigInt.SetString slotId) as [s|]; [|discriminate].
  rewrite Cmp_gt.
  destruct (Z.ltb_spec BlocksAvailableAfterSlot s) as [L|L]; [|discriminate].
  cbn [negb]. unfold BlocksAvailableAfterSlot in L.
  destruct (sendAPIRequest_total w (BaseUrl c ++ "/eth/v1/beacon/headers")
              "current slot id" (unmarshalHeader w) t) as (r & t1 & H).
  unfold bind at 1. rewrite (getCurrentSlotId_cases w c t _ _ H).
  assert (Z0 : (if BigInt.Cmp s 0 =? 1 then true else false) = true).
  { rewrite Cmp_gt. destruct (Z.ltb_spec 0 s); [reflexivity|lia]. }
  destruct r as [header|e].
  2:{ destruct (BigInt.Cmp s 0 =? 1); discriminate. }
  destruct (sendAPIRequest_ok_trace _ _ _ _ _ _ _ H) as [-> Hw].
  destruct (Slots header) as [|slot rest]; [discriminate|].
  destruct (BigInt.SetString slot) as [h|].
  2:{ destruct (BigInt.Cmp s 0 =? 1); discriminate. }
  destruct (BigInt.Cmp s h =? 1); [discriminate|].
  unfold getBlockHash. unfold bind at 1 2.
  match goal with
  | |- context [sendAPIRequest w ?u ?n ?d ?tr] =>
      destruct (sendAPIRequest w u n d tr) as [[[detail|e]|] t2] eqn:H2
  end; try discriminate.
  destruct (sendAPIRequest_ok_trace _ _ _ _ _ _ _ H2) as [-> _].
  unfold ret at 1. unfold BlockByHash, RoundTrip, bind, sent, ret.
  rewrite Hw. destruct (transport w _) as [resp|e]; [|discriminate].
  intros [= _ <-]. split; [reflexivity|].
  now exists (HexToHash w (BlockHash detail)).
Qed.

(** X7. A reward query that gets its block sends the head request, the
    block-detail request and the block request, and then exactly one receipt
    request per transaction of the block, in the order of the block: three
    requests plus one per transaction, whatever the receipt fetches
    return. *)
Theorem reward_requests w c ctx slotId t block t' :
  resolveBlock w c ctx slotId t = (Some (ok block), t') ->
  exists hash,
    snd (GetBlockRewardAndStatusBySlot w c ctx slotId t)
    = (rev (map (receiptRequest c ctx) (Transactions block))
       ++ rpcRequest c ctx "eth_getBlockByHash" hash
          :: restRequest (BaseUrl c ++ BlockDetailPath ++ slotId)
          :: restRequest (BaseUrl c ++ "/eth/v1/beacon/headers")
          :: t)%list
    /\ List.length (snd (GetBlockRewardAndStatusBySlot w c ctx slotId t))
       = (3 + List.length (Transactions block) + List.length t)%nat.
Proof.
  intros H. destruct (resolveBlock_trace _ _ _ _ _ _ _ H) as (Hw & hash & Ht).
  exists hash.
  assert (E : snd (GetBlockRewardAndStatusBySlot w c ctx slotId t)
              = (rev (map (receiptRequest c ctx) (Transactions block)) ++ t')%list).
  { rewrite query_split, (bind_run _ _ _ _ _ H).
    rewrite (bind_run _ _ _ _ _ (rewardLoop_trace w c ctx _ _ Hw _ _)).
    now destruct (totals _ _ _ _ _ _). }
  rewrite E, Ht. split; [reflexivity|].
  rewrite List.length_app, List.length_rev, List.length_map. cbn [List.length]. lia.
Qed.

(** The sample block of two transactions: five requests. *)
Lemma reward_requests_witness :
  snd (GetBlockRewardAndStatusBySlot Sample.w1 Sample.client Background
         "4700013" [])
  = [rpcRequest Sample.client Background "eth_getTransactionReceipt" "0x02";
     rpcRequest Sample.client Background "eth_getTransactionReceipt" "0x01";
     rpcRequest Sample.client Background "eth_getBlockByHash" "0xb10c";
     restRequest "http://node/eth/v2/beacon/blocks/4700013";
     restRequest "http://node/eth/v1/beacon/headers"]
  /\ List.length (snd (GetBlockRewardAndStatusBySlot Sample.w1 Sample.client
                         Background "4700013" [])) = 5%nat.
Proof.
  destruct (reward_requests Sample.w1 Sample.client Background "4700013" []
              Sample.block1
              [rpcRequest Sample.client Background "eth_getBlockByHash" "0xb10c";
               restRequest "http://node/eth/v2/beacon/blocks/4700013";
               restRequest "http://node/eth/v1/beacon/headers"]
              eq_refl) as (hash & H & L).
  split; [reflexivity|exact L].
Defined.

(** *** Replies of the handlers *)

(** X8. Each handler replies 200 exactly when its query succeeds: a success
    is answered with 200 and the reward and status (or the list of public
    keys), and a 200 reply is only ever produced by a successful query; the
    handlers send no request of their own. *)
Theorem handlers_success w client c slotId t :
  (forall reward status t',
     GetBlockRewardAndStatusBySlot w client c slotId t
     = (Some (ok (reward, status)), t') ->
     GetBlockRewardHandler w client c slotId t
     = (Some (mkReply 200 (JObject [("reward", reward); ("status", status)])),
        t'))
  /\ (forall pubKeys t',
        GetSyncCommitteeDuties w client slotId t = (Some (ok pubKeys), t') ->
        GetSyncDutiesHandler w client c slotId t
        = (Some (mkReply 200 (JStrings pubKeys)), t'))
  /\ (forall reply t',
        GetBlockRewardHandler w client c slotId t = (Some reply, t') ->
        Code reply = 200 ->
        exists reward status,
          GetBlockRewardAndStatusBySlot w client c slotId t
          = (Some (ok (reward, status)), t'))
  /\ (forall reply t',
        GetSyncDutiesHandler w client c slotId t = (Some reply, t') ->
        Code reply = 200 ->
        exists pubKeys,
          GetSyncCommitteeDuties w client slotId t = (Some (ok pubKeys), t')).
Proof.
  unfold GetBlockRewardHandler, GetSyncDutiesHandler.
  repeat split.
  - intros reward status t' H. now rewrite (bind_run _ _ _ _ _ H).
  - intros pubKeys t' H. now rewrite (bind_run _ _ _ _ _ H).
  - intros reply t'. unfold bind.
    destruct (GetBlockRewardAndStatusBySlot w client c slotId t)
      as [[[[reward status]|[msg|msg|msg]]|] t1]; unfold ret;
      intros [= <- <-]; try discriminate. eauto.
  - intros reply t'. unfold bind.
    destruct (GetSyncCommitteeDuties w client slotId t)
      as [[[pubKeys|[msg|msg|msg]]|] t1]; unfold ret;
      intros [= <- <-]; try discriminate. eauto.
Qed.

(** The sample node: the reward handler at slot 4700013 and the duty
    handler. *)
Lemma handlers_success_witness :
  fst (GetBlockRewardHandler Sample.w1 Sample.client Background "4700013" [])
  = Some (mkReply 200 (JObject [("reward", "0.001752007");
                                ("status", "mev")]))
  /\ fst (GetSyncDutiesHandler Sample.w1 Sample.client Background "5000000" [])
     = Some (mkReply 200 (JStrings ["0xaa"; "0xbb"])).
Proof.
  destruct (handlers_success Sample.w1 Sample.client Background "4700013" [])
    as (H & _).
  destruct (handlers_success Sample.w1 Sample.client Background "5000000" [])
    as (_ & D & _).
  split.
  - now rewrite (H "0.001752007" "mev" _ eq_refl).
  - now rewrite (D ["0xaa"; "0xbb"] _ eq_refl).
Defined.

(** *** A limiter that refuses *)

(** X9. When the limiter refuses the wait, no request reaches the node.
    The duty query fails with the limiter's error. The reward query never
    reports it: the head fetch turns the refusal into head slot 0, so a
    slot above the floor is answered [FutureSlot], and the reward handler
    replies 400 with "Slot is in the future". *)
Theorem limiter_refusal w c ctx slotId e t :
  Wait w Background = Some e ->
  (forall s,
     BigInt.SetString slotId = Some s ->
     BlocksAvailableAfterSlot < s ->
     GetBlockRewardAndStatusBySlot w c ctx slotId t
     = (Some (err (FutureSlotError "Slot is in the future")), t)
     /\ GetBlockRewardHandler w c ctx slotId t
        = (Some (mkReply 400 (JObject [("error", "Slot is in the future")])),
           t))
  /\ (NewRequestError w (BaseUrl c ++ StatePath ++ slotId ++ "/sync_committees")
      = None ->
      GetSyncCommitteeDuties w c slotId t = (Some (err e), t))
  /\ snd (GetBlockRewardAndStatusBySlot w c ctx slotId t) = t
  /\ snd (GetSyncCommitteeDuties w c slotId t) = t.
Proof.
  intros Hw.
  assert (Hh : getCurrentSlotId w c t = (Some 0, t)).
  { destruct (sendAPIRequest_limited w (BaseUrl c ++ "/eth/v1/beacon/headers")
                "current slot id" (unmarshalHeader w) e t Hw) as [e' H].
    now apply getCurrentSlotId_error with (e := e'). }
  assert (Hr : forall s,
             BigInt.SetString slotId = Some s ->
             BlocksAvailableAfterSlot < s ->
             GetBlockRewardAndStatusBySlot w c ctx slotId t
             = (Some (err (FutureSlotError "Slot is in the future")), t)).
  { intros s Hs Hgt. apply reward_above_head with (s := s) (h := 0); auto.
    unfold BlocksAvailableAfterSlot in Hgt. lia. }
  assert (Hd : exists e', GetSyncCommitteeDuties w c slotId t
                          = (Some (err e'), t)).
  { destruct (sendAPIRequest_limited w
                (BaseUrl c ++ StatePath ++ slotId ++ "/sync_committees")
                "sync committees" (unmarshalSyncCommittees w) e t Hw) as [e' H].
    exists e'. unfold GetSyncCommitteeDuties, getSyncCommitteesValidatorIndexes.
    unfold bind at 1 2. now rewrite H. }
  split; [|split; [|split]].
  - intros s Hs Hgt. split; [now apply Hr with (s := s)|].
    unfold GetBlockRewardHandler.
    now rewrite (bind_run _ _ _ _ _ (Hr s Hs Hgt)).
  - intros Hn. unfold GetSyncCommitteeDuties, getSyncCommitteesValidatorIndexes.
    unfold bind at 1 2.
    now rewrite (sendAPIRequest_limited_eq w _ _ _ e t Hn Hw).
  - destruct (BigInt.SetString slotId) as [s|] eqn:Hs.
    + destruct (Z.le_gt_cases s BlocksAvailableAfterSlot) as [L|L].
      * now rewrite (reward_below_floor w c ctx slotId s t Hs L).
      * now rewrite (Hr s eq_refl L).
    + unfold GetBlockRewardAndStatusBySlot. now rewrite Hs.
  - destruct Hd as [e' ->]. reflexivity.
Qed.

(** The limiter of rate 0 with its burst spent. *)
Lemma limiter_refusal_witness :
  GetBlockRewardHandler Scenario.wLimited Sample.client Background "4700013" []
  = (Some (mkReply 400 (JObject [("error", "Slot is in the future")])), [])
  /\ GetSyncCommitteeDuties Scenario.wLimited Sample.client "4700013" []
     = (Some (err (OtherError "rate: Wait(n=1) exceeds limiter's burst 0")), []).
Proof.
  destruct (limiter_refusal Scenario.wLimited Sample.client Background
              "4700013"
              (OtherError "rate: Wait(n=1) exceeds limiter's burst 0") []
              eq_refl) as (R & D & _).
  split.
  - exact (proj2 (R 4700013 eq_refl eq_refl)).
  - exact (D eq_refl).
Defined.

(** *** Reading the reward text back *)

Lemma dropPoint_app (s1 s2 : string) :
  dropPoint (s1 ++ s2) = dropPoint s1 ++ dropPoint s2.
Proof.
  induction s1 as [|c s1 IH]; [reflexivity|]. cbn [append dropPoint].
  destruct (Ascii.eqb c "."); [exact IH|]. cbn [append]. now rewrite IH.
Qed.

Lemma dropPoint_digits (s : string) : allDigits s = true -> dropPoint s = s.
Proof.
  induction s as [|c s IH]; [reflexivity|]. cbn [allDigits dropPoint].
  intros H. apply andb_prop in H as [Hc Hs].
  now rewrite (isDigit_not_point c Hc), (IH Hs).
Qed.

Lemma readFixed_fixed9 (r : Z) : readFixed (fixed9 r) = Some r.
Proof.
  unfold readFixed, fixed9.
  destruct (itoa_shape (Z.abs r / 10 ^ 9)) as (c & rest & E & Hc & Hrest).
  assert (Hi : allDigits (itoa (Z.abs r / 10 ^ 9)) = true).
  { rewrite E. cbn [allDigits]. now rewrite Hc, Hrest. }
  rewrite !dropPoint_app, (dropPoint_digits _ Hi),
    (dropPoint_digits _ (digits_allDigits 9 _)).
  change (dropPoint ".") with "". cbn [append].
  pose proof (fixed9_reads_back r) as R.
  destruct (Z.ltb_spec r 0) as [L|L].
  - change (dropPoint "-") with "-". cbn [append BigInt.SetString].
    rewrite R. cbn [option_map]. f_equal. lia.
  - change (dropPoint "") with "". cbn [append].
    rewrite E in *. cbn [append] in *. unfold BigInt.SetString.
    assert (V : BigInt.scan
                  (String c (rest ++ digits 9 (Z.abs r mod 10 ^ 9))) 0 false
                = Some r) by (rewrite R; f_equal; lia).
    destruct c as [[] [] [] [] [] [] [] []]; try exact V; discriminate.
Qed.

(** X10. Round trip: for a net reward below 2^34 * 10^9 in magnitude, the
    reward text read back as a number of units of its ninth decimal (its
    digits without the point, parsed as the slot strings are) is the net
    reward itself; so no other net reward in that range has the same
    text. *)
Theorem reward_text_reads_back (r : Z) :
  Z.abs r < 2 ^ 34 * 10 ^ 9 ->
  readFixed (rewardAsText r) = Some r
  /\ forall r',
       Z.abs r' < 2 ^ 34 * 10 ^ 9 ->
       rewardAsText r' = rewardAsText r ->
       r' = r.
Proof.
  assert (R : forall x, Z.abs x < 2 ^ 34 * 10 ^ 9 ->
                        readFixed (rewardAsText x) = Some x).
  { intros x H. rewrite (rewardAsText_exact x (small_is_exact x H)).
    apply readFixed_fixed9. }
  intros H. split; [now apply R|].
  intros r' H' E. apply R in H, H'. rewrite E, H in H'. now injection H'.
Qed.

(** A negative net reward. *)
Lemma reward_text_reads_back_witness :
  readFixed (rewardAsText (-2500000001)) = Some (-2500000001)
  /\ rewardAsText (-2500000001) = "-2.500000001".
Proof.
  split; [|reflexivity].
  apply (reward_text_reads_back (-2500000001)). vm_compute. reflexivity.
Defined.

(** *** The accuracy of the reward text *)

Lemma round_quo_gwei_exp (a p s m e : Z) :
  1 <= a -> 0 <= s -> 64 <= p ->
  Z.log2 (a * 2 ^ s) = p - 1 ->
  round_quo p (a * 2 ^ s) (10 ^ 9 * 2 ^ 34) = (m, e) ->
  -64 <= e <= -62.
Proof.
  intros Ha Hs Hp Hlog.
  unfold round_quo. rewrite Hlog.
  change (Z.log2 (10 ^ 9 * 2 ^ 34)) with 63.
  destruct (scale_den _ _ <=? scale_num _ _);
    match goal with
    | |- context [if ?b then _ else _] => destruct b
    end; intros [= <- <-]; lia.
Qed.

(** The quotient by [GWEI], scaled back: within half a unit of the last
    place of the float, which is at most [a / (2^64 - 1)]. *)
Lemma scaled_error (r : Z) :
  2 * (2 ^ 64 - 1)
    * Z.abs (scaled (Quo (SetInt r) (SetInt GWEI)) 9 - Z.abs r)
  <= 2 ^ 64 - 1 + 2 * Z.abs r.
Proof.
  destruct (Z.eq_dec r 0) as [->|NZ]; [vm_compute; discriminate|].
  rewrite (Quo_gwei r NZ).
  set (bl := BigInt.BitLen r) in *. set (p := Z.max bl 64) in *.
  assert (Hbl : bl = Z.log2 (Z.abs r) + 1).
  { unfold bl, BigInt.BitLen. destruct (Z.eqb_spec (Z.abs r) 0); [lia|reflexivity]. }
  pose proof (Z.log2_nonneg (Z.abs r)).
  assert (Hlog : Z.log2 (Z.abs r * 2 ^ (p - bl)) = p - 1).
  { rewrite Z.log2_mul_pow2 by lia. lia. }
  set (a := Z.abs r) in *. set (s := p - bl) in *.
  assert (Ha : 1 <= a) by lia. assert (Hs : 0 <= s) by lia.
  assert (HP : 0 < 2 ^ s) by (apply Z.pow_pos_nonneg; lia).
  destruct (round_quo p (a * 2 ^ s) (10 ^ 9 * 2 ^ 34)) as [m e] eqn:Q.
  pose proof (round_quo_gwei_exp a p s m e Ha Hs ltac:(lia) Hlog Q) as He.
  pose proof (round_quo_spec p (a * 2 ^ s) (10 ^ 9 * 2 ^ 34) m e
                ltac:(lia) ltac:(nia) ltac:(lia) Q) as [[Hm _] R].
  unfold scale_den, scale_num in R.
  destruct (Z.leb_spec 0 e); [lia|].
  unfold scaled; cbn [exp mant].
  destruct (Z.leb_spec 0 (e - s + 34)); [lia|].
  change (10 ^ Z.of_nat 9) with (10 ^ 9).
  set (D := 2 ^ (- (e - s + 34))).
  assert (HD : 0 < D) by (apply Z.pow_pos_nonneg; lia).
  assert (E : 2 ^ s * 2 ^ (- e) = 2 ^ 34 * D).
  { unfold D. rewrite <- !Z.pow_add_r by lia. f_equal. lia. }
  pose proof (rne_div_spec (m * 10 ^ 9) D HD) as RN.
  set (N := rne_div (m * 10 ^ 9) D) in *.
  assert (Hm63 : 2 ^ 63 <= m).
  { eapply Z.le_trans; [|exact Hm]. apply Z.pow_le_mono_r; lia. }
  replace (a * 2 ^ s * 2 ^ (- e)) with (a * (2 ^ s * 2 ^ (- e))) in R by ring.
  rewrite E in R.
  replace (a * (2 ^ 34 * D)) with (2 ^ 34 * (a * D)) in R by ring.
  set (aD := a * D) in *.
  assert (R' : - 10 ^ 9 <= 2 * (m * 10 ^ 9 - aD) <= 10 ^ 9).
  { norm_pow. lia. }
  clear R.
  assert (B1 : - (D + 10 ^ 9) <= 2 * (N * D - aD) <= D + 10 ^ 9) by lia.
  assert (B2 : (2 ^ 64 - 1) * 10 ^ 9 <= 2 * aD).
  { norm_pow. lia. }
  set (d := N - a) in *.
  assert (B3 : - (D + 10 ^ 9) <= 2 * (d * D) <= D + 10 ^ 9).
  { unfold d, aD in *. lia. }
  clear RN R' B1. revert B2 B3. norm_pow. intros B2 B3.
  apply Z.nlt_ge. intros C.
  set (dD := d * D) in *.
  destruct (Z.abs_spec d) as [[Hd Ed]|[Hd Ed]]; rewrite Ed in C.
  - assert (M : (18446744073709551615 + 2 * a + 1) * D
                <= 2 * 18446744073709551615 * d * D)
      by (apply Z.mul_le_mono_nonneg_r; lia).
    replace ((18446744073709551615 + 2 * a + 1) * D)
      with (18446744073709551615 * D + 2 * aD + D) in M by (unfold aD; ring).
    replace (2 * 18446744073709551615 * d * D)
      with (2 * 18446744073709551615 * dD) in M by (unfold dD; ring).
    lia.
  - assert (M : (18446744073709551615 + 2 * a + 1) * D
                <= 2 * 18446744073709551615 * - d * D)
      by (apply Z.mul_le_mono_nonneg_r; lia).
    replace ((18446744073709551615 + 2 * a + 1) * D)
      with (18446744073709551615 * D + 2 * aD + D) in M by (unfold aD; ring).
    replace (2 * 18446744073709551615 * - d * D)
      with (- (2 * 18446744073709551615 * dD)) in M by (unfold dD; ring).
    lia.
Qed.

(** X11. For every net reward [r] the reward text is the exact
    nine-decimal expansion of some [r'] of the same sign whose distance from
    [r] is at most 1/2 + |r| / (2^64 - 1): the relative error of the
    division stays within the 64 bits of the quotient, and below 2^64 the
    text is off by at most one unit of its last digit. *)
Theorem reward_text_accuracy (r : Z) :
  exists r',
    rewardAsText r = fixed9 r'
    /\ (r' <? 0) = (r <? 0)
    /\ 2 * (2 ^ 64 - 1) * Z.abs (r' - r) <= 2 ^ 64 - 1 + 2 * Z.abs r
    /\ (Z.abs r < 2 ^ 64 -> Z.abs (r' - r) <= 1).
Proof.
  pose proof (scaled_error r) as B.
  set (N := scaled (Quo (SetInt r) (SetInt GWEI)) 9) in *.
  assert (HN : 0 <= N).
  { revert B. norm_pow. lia. }
  exists (if r <? 0 then - N else N).
  assert (HN1 : r <> 0 -> 1 <= N).
  { intros NZ. revert B. norm_pow. lia. }
  assert (Hsign : ((if r <? 0 then - N else N) <? 0) = (r <? 0)).
  { destruct (Z.ltb_spec r 0) as [L|L].
    - apply Z.ltb_lt. specialize (HN1 ltac:(lia)). lia.
    - apply Z.ltb_ge. lia. }
  assert (Habs : Z.abs (if r <? 0 then - N else N) = N).
  { destruct (r <? 0); lia. }
  assert (Hd : Z.abs ((if r <? 0 then - N else N) - r) = Z.abs (N - Z.abs r)).
  { destruct (Z.ltb_spec r 0); lia. }
  split; [|split; [exact Hsign|split]].
  - unfold fixed9. rewrite Hsign, Habs.
    unfold rewardAsText, Text. fold N. rewrite neg_Quo_gwei. reflexivity.
  - rewrite Hd. exact B.
  - intros Hr. rewrite Hd. revert B. norm_pow. lia.
Qed.

(** A net reward above 2^34 * 10^9. *)
Lemma reward_text_accuracy_witness :
  exists r',
    rewardAsText 17179869184000000001 = fixed9 r'
    /\ Z.abs (r' - 17179869184000000001) <= 1.
Proof.
  destruct (reward_text_accuracy 17179869184000000001) as (r' & E & _ & _ & H).
  exists r'. split; [exact E|]. apply H. vm_compute. reflexivity.
Defined.

(** *** The reward as the sum of the priority fees *)

Lemma totalCost_receipts w c ctx txs receipts :
  Forall2 (fun tx receipt =>
             receiptOutcome w c ctx (TxHash tx) = ok receipt
             /\ 0 <= ReceiptGasUsed receipt < 2 ^ 63) txs receipts ->
  forall baseFee,
    totalCost w c ctx txs - baseFee * gasOf receipts = tips baseFee receipts.
Proof.
  induction 1 as [|tx receipt txs receipts [Ho Hg] _ IH]; intros baseFee.
  - cbn. lia.
  - cbn [totalCost fold_right gasOf tips].
    fold (totalCost w c ctx txs) (gasOf receipts) (tips baseFee receipts).
    rewrite <- (IH baseFee).
    unfold costOf, costAndPrice. rewrite Ho. cbn [fst].
    rewrite (int64_small _ Hg). ring.
Qed.

Lemma tips_nonneg baseFee receipts :
  Forall (fun receipt => baseFee <= EffectiveGasPrice receipt
                         /\ 0 <= ReceiptGasUsed receipt) receipts ->
  0 <= tips baseFee receipts.
Proof.
  induction 1 as [|receipt receipts [Hp Hg] _ IH]; cbn [tips fold_right]; [lia|].
  fold (tips baseFee receipts).
  assert (0 <= (EffectiveGasPrice receipt - baseFee) * ReceiptGasUsed receipt)
    by (apply Z.mul_nonneg_nonneg; lia).
  lia.
Qed.

(** X12. When every transaction of the resolved block has a receipt and the
    gas used by the block is the gas used by its receipts (each below
    2^63), the burnt fees cancel the base-fee share of every transaction
    and the reward returned is the text of the sum of the priority fees,
    (effective gas price - base fee) * gas used over the receipts; it does
    not carry a minus sign when no effective gas price is below the base
    fee. *)
Theorem reward_is_tips w c ctx slotId t block t' receipts :
  resolveBlock w c ctx slotId t = (Some (ok block), t') ->
  Forall2 (fun tx receipt =>
             receiptOutcome w c ctx (TxHash tx) = ok receipt
             /\ 0 <= ReceiptGasUsed receipt < 2 ^ 63)
          (Transactions block) receipts ->
  GasUsed block = gasOf receipts ->
  GasUsed block < 2 ^ 63 ->
  exists status t'',
    GetBlockRewardAndStatusBySlot w c ctx slotId t
    = (Some (ok (rewardAsText (tips (BaseFee block) receipts), status)), t'')
    /\ (Forall (fun receipt => BaseFee block <= EffectiveGasPrice receipt)
               receipts ->
        0 <= tips (BaseFee block) receipts
        /\ isNegative (rewardAsText (tips (BaseFee block) receipts)) = false).
Proof.
  intros H HR HG HL.
  destruct (query_resolved w c ctx _ _ _ _ H) as [t'' Hq].
  assert (G0 : 0 <= gasOf receipts).
  { clear - HR. induction HR as [|tx receipt txs receipts [_ Hg] _ IH];
      cbn [gasOf fold_right]; [lia|]. fold (gasOf receipts). lia. }
  assert (E : netReward w c ctx block = tips (BaseFee block) receipts).
  { unfold netReward. rewrite (int64_small (GasUsed block)) by lia.
    rewrite HG. now apply totalCost_receipts. }
  rewrite E in Hq. eexists _, t''. split; [exact Hq|].
  intros HP.
  assert (N : 0 <= tips (BaseFee block) receipts).
  { apply tips_nonneg.
    clear - HR HP. revert HP.
    induction HR as [|tx receipt txs receipts [_ Hg] _ IH]; intros HP;
      constructor.
    - inversion HP; subst. lia.
    - apply IH. now inversion HP. }
  split; [exact N|].
  rewrite rewardAsText_sign. apply Z.ltb_ge, N.
Qed.

(** Tips of 2 and 35 on 21000 and 30000 units of gas. *)
Lemma reward_is_tips_witness :
  exists status t'',
    GetBlockRewardAndStatusBySlot Scenario.wFull Sample.client Background
      "4700013" []
    = (Some (ok ("0.001092000", status)), t'').
Proof.
  destruct (reward_is_tips Scenario.wFull Sample.client Background "4700013" []
              Scenario.blockFull
              [rpcRequest Sample.client Background "eth_getBlockByHash" "0xb10c";
               restRequest "http://node/eth/v2/beacon/blocks/4700013";
               restRequest "http://node/eth/v1/beacon/headers"]
              [mkReceipt 12 21000; mkReceipt 45 30000] eq_refl)
    as (status & t'' & Hq & _).
  - repeat constructor; vm_compute; congruence.
  - reflexivity.
  - reflexivity.
  - exists status, t''. exact Hq.
Defined.

(** ** The earlier client *)

Module LegacyFacts.
Import Legacy.

Lemma bind_then {A B} (m : L A) (k : A -> L B) t a t' :
  m t = (Some a, t') -> bind m k t = k a t'.
Proof. intros H. unfold bind. now rewrite H. Qed.

Lemma int64_wrap_small (x : Z) :
  - 2 ^ 63 <= x < 2 ^ 63 -> int64_wrap x = x.
Proof.
  intros H. unfold int64_wrap. rewrite Z.mod_small; lia.
Qed.

(** One attempt that the node answers with 429 and a delay. *)
Lemma sendAPIRequest_429 {A} fuel n requestUrl requestName
    (unmarshal : string -> res A) t resp d :
  NewRequestError (base n) requestUrl = None ->
  Do n t (restRequest requestUrl) = ok resp ->
  StatusCode (response resp) = StatusTooManyRequests ->
  Atoi (RetryAfter resp) = ok d ->
  sendAPIRequest (S fuel) n requestUrl requestName unmarshal t
  = sendAPIRequest fuel n requestUrl requestName unmarshal
      (Slept (int64_wrap (d * Second)) :: Sent (restRequest requestUrl) :: t).
Proof.
  intros Hn Hd Hs Ha. cbn [sendAPIRequest]. rewrite Hn.
  unfold bind at 1, send. rewrite Hd, Hs, Z.eqb_refl, Ha.
  reflexivity.
Qed.

(** One attempt that the node answers otherwise. *)
Lemma sendAPIRequest_answered {A} fuel n requestUrl requestName
    (unmarshal : string -> res A) t resp body :
  NewRequestError (base n) requestUrl = None ->
  Do n t (restRequest requestUrl) = ok resp ->
  StatusCode (response resp) <> StatusTooManyRequests ->
  ReadAll (response resp) = ok body ->
  sendAPIRequest (S fuel) n requestUrl requestName unmarshal t
  = (Some (unmarshal body), Sent (restRequest requestUrl) :: t).
Proof.
  intros Hn Hd Hs Hb. cbn [sendAPIRequest]. rewrite Hn.
  unfold bind, send. rewrite Hd.
  destruct (Z.eqb_spec (StatusCode (response resp)) StatusTooManyRequests);
    [contradiction|].
  rewrite Hb. now destruct (unmarshal body).
Qed.

Lemma requests_retried req ds :
  forall t,
    List.length (requests (retried req ds t))
    = (List.length ds + List.length (requests t))%nat.
Proof.
  induction ds as [|d ds IH]; intros t; [reflexivity|].
  cbn [retried]. rewrite IH. cbn [requests List.length]. lia.
Qed.

Lemma slept_retried req ds :
  Forall (fun d => 0 <= d <= 9223372036) ds ->
  forall t,
    slept (retried req ds t) = slept t + Second * fold_right Z.add 0 ds.
Proof.
  induction 1 as [|d ds Hd _ IH]; intros t; cbn [retried fold_right]; [lia|].
  rewrite IH. cbn [slept].
  rewrite int64_wrap_small by (unfold Second; lia).
  unfold Second. lia.
Qed.

End LegacyFacts.

Import LegacyFacts.

(** X13. The REST layer of the earlier client retries without bound while
    the node answers 429: when the node answers the request with 429 and
    the delays [ds] (the numbers of its Retry-After headers) and then with
    another status and a readable body, the call sleeps after each 429,
    sends the request once more than there are delays, and returns what the
    last body decodes to, whatever that last status is. The delays, if
    each is at most 9223372036 seconds, add up to the time slept. *)
Theorem retry_until_served {A} n requestUrl requestName
    (unmarshal : string -> res A) ds t resp body fuel :
  NewRequestError (Legacy.base n) requestUrl = None ->
  Legacy.throttled n (restRequest requestUrl) ds t ->
  Legacy.Do n (Legacy.retried (restRequest requestUrl) ds t)
    (restRequest requestUrl) = ok resp ->
  StatusCode (Legacy.response resp) <> Legacy.StatusTooManyRequests ->
  ReadAll (Legacy.response resp) = ok body ->
  (List.length ds < fuel)%nat ->
  Legacy.sendAPIRequest fuel n requestUrl requestName unmarshal t
  = (Some (unmarshal body),
     Legacy.Sent (restRequest requestUrl)
     :: Legacy.retried (restRequest requestUrl) ds t)
  /\ List.length
       (Legacy.requests
          (snd (Legacy.sendAPIRequest fuel n requestUrl requestName unmarshal t)))
     = (S (List.length ds) + List.length (Legacy.requests t))%nat
  /\ (Forall (fun d => 0 <= d <= 9223372036) ds ->
      Legacy.slept
        (snd (Legacy.sendAPIRequest fuel n requestUrl requestName unmarshal t))
      = Legacy.slept t + Legacy.Second * fold_right Z.add 0 ds).
Proof.
  intros Hn Ht Hd Hs Hb Hf.
  assert (E : Legacy.sendAPIRequest fuel n requestUrl requestName unmarshal t
              = (Some (unmarshal body),
                 Legacy.Sent (restRequest requestUrl)
                 :: Legacy.retried (restRequest requestUrl) ds t)).
  { revert t fuel Ht Hd Hf.
    induction ds as [|d ds IH]; intros t fuel Ht Hd Hf.
    - destruct fuel as [|fuel]; [cbn in Hf; lia|].
      now apply sendAPIRequest_answered with (resp := resp).
    - destruct fuel as [|fuel]; [cbn in Hf; lia|].
      destruct Ht as [(r & Hr & Hc & Ha) Ht].
      rewrite (sendAPIRequest_429 _ _ _ _ _ _ _ _ Hn Hr Hc Ha).
      apply IH; auto. cbn [List.length] in Hf. lia. }
  rewrite E. cbn [snd Legacy.requests Legacy.slept List.length].
  split; [reflexivity|split].
  - now rewrite requests_retried.
  - intros Hds. now apply slept_retried.
Qed.

(** Two answers of 429 with a delay of three seconds, then the block
    detail. *)
Lemma retry_until_served_witness :
  Legacy.sendAPIRequest 3 (LegacySample.throttling 2 "3" Sample.w1)
    "http://node/eth/v2/beacon/blocks/5" "beacon block detail"
    (unmarshalBlockDetail Sample.w1) []
  = (Some (ok {| BlockHash := "0xb10c" |}),
     [Legacy.Sent (restRequest "http://node/eth/v2/beacon/blocks/5");
      Legacy.Slept 3000000000;
      Legacy.Sent (restRequest "http://node/eth/v2/beacon/blocks/5");
      Legacy.Slept 3000000000;
      Legacy.Sent (restRequest "http://node/eth/v2/beacon/blocks/5")])
  /\ Legacy.slept
       (snd (Legacy.sendAPIRequest 3 (LegacySample.throttling 2 "3" Sample.w1)
               "http://node/eth/v2/beacon/blocks/5" "beacon block detail"
               (unmarshalBlockDetail Sample.w1) []))
     = 6000000000.
Proof.
  destruct (retry_until_served (LegacySample.throttling 2 "3" Sample.w1)
              "http://node/eth/v2/beacon/blocks/5" "beacon block detail"
              (unmarshalBlockDetail Sample.w1) [3; 3] []
              (Legacy.mkAnswer
                 (mkResponse 200 (ok "http://node/eth/v2/beacon/blocks/5")) "")
              "http://node/eth/v2/beacon/blocks/5" 3%nat)
    as (E & _ & S).
  - reflexivity.
  - repeat split; eexists; repeat split.
  - reflexivity.
  - vm_compute. discriminate.
  - reflexivity.
  - repeat constructor.
  - split; [exact E|]. rewrite S; [reflexivity|].
    repeat constructor; vm_compute; discriminate.
Defined.

(** X14. A node that answers a request with 429 and a numeric Retry-After
    every time keeps the REST call of the earlier client from ever
    returning: whatever the fuel, the call has not returned, and it has
    sent the request once per unit of fuel. *)
Theorem retry_forever {A} n requestUrl requestName
    (unmarshal : string -> res A) :
  NewRequestError (Legacy.base n) requestUrl = None ->
  (forall t, exists resp d,
     Legacy.Do n t (restRequest requestUrl) = ok resp
     /\ StatusCode (Legacy.response resp) = Legacy.StatusTooManyRequests
     /\ Legacy.Atoi (Legacy.RetryAfter resp) = ok d) ->
  forall fuel t,
    fst (Legacy.sendAPIRequest fuel n requestUrl requestName unmarshal t) = None
    /\ List.length
         (Legacy.requests
            (snd (Legacy.sendAPIRequest fuel n requestUrl requestName
                    unmarshal t)))
       = (fuel + List.length (Legacy.requests t))%nat.
Proof.
  intros Hn H fuel.
  induction fuel as [|fuel IH]; intros t; [split; reflexivity|].
  destruct (H t) as (resp & d & Hd & Hs & Ha).
  rewrite (sendAPIRequest_429 _ _ _ _ _ _ _ _ Hn Hd Hs Ha).
  destruct (IH (Legacy.Slept (Legacy.int64_wrap (d * Legacy.Second))
                :: Legacy.Sent (restRequest requestUrl) :: t)) as [F L].
  split; [exact F|]. rewrite L. cbn [Legacy.requests List.length]. lia.
Qed.

(** The busy node after five units of fuel. *)
Lemma retry_forever_witness :
  fst (Legacy.sendAPIRequest 5 (LegacySample.busy "1" Sample.w1)
         "http://node/eth/v2/beacon/blocks/5" "beacon block detail"
         (unmarshalBlockDetail Sample.w1) []) = None
  /\ List.length
       (Legacy.requests
          (snd (Legacy.sendAPIRequest 5 (LegacySample.busy "1" Sample.w1)
                  "http://node/eth/v2/beacon/blocks/5" "beacon block detail"
                  (unmarshalBlockDetail Sample.w1) []))) = 5%nat.
Proof.
  apply (retry_forever (LegacySample.busy "1" Sample.w1)
           "http://node/eth/v2/beacon/blocks/5" "beacon block detail"
           (unmarshalBlockDetail Sample.w1) eq_refl).
  intros t. exists (Legacy.mkAnswer (mkResponse 429 (ok "")) "1"), 1.
  repeat split.
Defined.

(** *** The two versions on a successful query *)

Lemma sendAPIRequest_ok_inv {A} w requestUrl requestName
    (unmarshal : string -> res A) t v t' :
  sendAPIRequest w requestUrl requestName unmarshal t = (Some (ok v), t') ->
  NewRequestError w requestUrl = None
  /\ Wait w Background = None
  /\ exists resp body,
       transport w (restRequest requestUrl) = ok resp
       /\ ReadAll resp = ok body
       /\ unmarshal body = ok v.
Proof.
  unfold sendAPIRequest, RoundTrip, bind, sent, ret.
  destruct (NewRequestError w requestUrl); [discriminate|].
  destruct (Wait w Background); [discriminate|].
  destruct (transport w _) as [resp|e] eqn:Ht; [|discriminate].
  destruct (ReadAll resp) as [body|e] eqn:Hb; [|discriminate].
  destruct (StatusCode resp =? StatusNotFound); [discriminate|].
  destruct (StatusCode resp =? StatusBadRequest); [discriminate|].
  destruct (unmarshal body) as [v'|e] eqn:Hu; [|discriminate].
  intros [= <- _]. repeat split. now exists resp, body.
Qed.

(** What a resolved block tells about the answers of the node. *)
Lemma resolveBlock_ok_inv w c ctx slotId t block t' :
  resolveBlock w c ctx slotId t = (Some (ok block), t') ->
  Wait w Background = None
  /\ NewRequestError w (BaseUrl c ++ BlockDetailPath ++ slotId) = None
  /\ exists resp body detail resp',
       transport w (restRequest (BaseUrl c ++ BlockDetailPath ++ slotId))
       = ok resp
       /\ ReadAll resp = ok body
       /\ unmarshalBlockDetail w body = ok detail
       /\ transport w (rpcRequest c ctx "eth_getBlockByHash"
                         (HexToHash w (BlockHash detail))) = ok resp'
       /\ decodeBlock w resp' = ok block.
Proof.
  unfold resolveBlock.
  destruct (BigInt.SetString slotId) as [s|]; [|discriminate].
  destruct (negb _); [discriminate|].
  unfold bind at 1.
  destruct (getCurrentSlotId w c t) as [[h|] t1]; [|discriminate].
  destruct (BigInt.Cmp s h =? 1); [discriminate|].
  unfold getBlockHash. unfold bind at 1 2.
  match goal with
  | |- context [sendAPIRequest w ?u ?n ?d ?tr] =>
      destruct (sendAPIRequest w u n d tr) as [[[detail|e]|] t2] eqn:H2
  end; try discriminate.
  destruct (sendAPIRequest_ok_inv _ _ _ _ _ _ _ H2)
    as (Hn & Hw & resp & body & Ht & Hb & Hu).
  unfold ret at 1. unfold BlockByHash, RoundTrip, bind, sent, ret.
  rewrite Hw.
  destruct (transport w (rpcRequest c ctx "eth_getBlockByHash"
                           (HexToHash w (BlockHash detail))))
    as [resp'|e] eqn:Ht'; [|discriminate].
  intros [= Hd _]. repeat split; auto.
  now exists resp, body, detail, resp'.
Qed.

(** On the node of the world the earlier receipt fetch has the outcome of
    the current one. *)
Lemma legacy_TransactionReceipt n w c ctx h t :
  Legacy.mirrors n w ->
  Wait w Background = None ->
  exists t',
    Legacy.TransactionReceipt n c ctx h t
    = (Some (receiptOutcome w c ctx h), t').
Proof.
  intros [Hb Hm] Hw.
  unfold Legacy.TransactionReceipt, Legacy.bind, Legacy.send, Legacy.ret,
    receiptOutcome.
  rewrite Hw. specialize (Hm t (rpcRequest c ctx "eth_getTransactionReceipt" h)).
  destruct (Legacy.Do n t _) as [resp|e]; rewrite Hm, ?Hb; eauto.
Qed.

Lemma legacy_rewardLoop n w c ctx baseFee txs :
  Legacy.mirrors n w ->
  Wait w Background = None ->
  forall acc t, exists t',
    Legacy.rewardLoop n c ctx baseFee txs acc t
    = (Some (totals w c ctx baseFee txs acc), t').
Proof.
  intros Hm Hw.
  induction txs as [|tx rest IH]; intros acc t; cbn [Legacy.rewardLoop].
  - now exists t.
  - destruct (legacy_TransactionReceipt n w c ctx (TxHash tx) t Hm Hw)
      as [t1 H1].
    rewrite (LegacyFacts.bind_then _ _ _ _ _ H1). apply IH.
Qed.

(** X15. The current version returns, whenever it succeeds, what the
    earlier version returned: on the same node, if dialling succeeds and
    the block-detail request is not answered with 429, a reward and status
    returned by the current reward query are returned by the earlier one
    too, without error. *)
Theorem legacy_agrees n w c ctx slotId t reward status t' :
  Legacy.mirrors n w ->
  Legacy.DialError n (BaseUrl c) = None ->
  (forall resp,
     transport w (restRequest (BaseUrl c ++ BlockDetailPath ++ slotId))
     = ok resp ->
     StatusCode resp <> Legacy.StatusTooManyRequests) ->
  GetBlockRewardAndStatusBySlot w c ctx slotId t
  = (Some (ok (reward, status)), t') ->
  forall fuel tl,
    fst (Legacy.GetBlockRewardAndStatusBySlot (S fuel) n c ctx slotId tl)
    = Some (reward, status, None).
Proof.
  intros Hm Hdial H429 Hq fuel tl.
  rewrite query_split in Hq. unfold bind at 1 in Hq.
  destruct (resolveBlock w c ctx slotId t) as [[[block|e]|] t1] eqn:Hr;
    try discriminate.
  destruct (resolveBlock_ok_inv _ _ _ _ _ _ _ Hr)
    as (Hw & Hn & resp & body & detail & resp' & Ht & Hb & Hu & Ht' & Hd).
  destruct (rewardLoop_run w c ctx (BaseFee block) (Transactions block)
              (0, "vanilla") t1) as [t2 Hl].
  rewrite (bind_run _ _ _ _ _ Hl) in Hq.
  destruct (totals w c ctx (BaseFee block) (Transactions block) (0, "vanilla"))
    as [txCosts st] eqn:Htot.
  unfold ret in Hq. injection Hq as <- <- _.
  pose proof Hm as [Hbase Hdo].
  unfold Legacy.GetBlockRewardAndStatusBySlot, Legacy.getBlockHash.
  unfold Legacy.bind at 1 2.
  pose proof (Hdo tl (restRequest (BaseUrl c ++ BlockDetailPath ++ slotId)))
    as D1.
  destruct (Legacy.Do n tl _) as [a|e] eqn:Ea; rewrite Ht in D1;
    [|discriminate].
  injection D1 as D1.
  rewrite (LegacyFacts.sendAPIRequest_answered fuel n _ _ _ tl a body);
    try assumption.
  2:{ now rewrite Hbase. }
  2:{ rewrite <- D1. now apply H429. }
  2:{ now rewrite <- D1. }
  rewrite Hbase, Hu. unfold Legacy.ret at 1. rewrite Hdial.
  unfold Legacy.BlockByHash. unfold Legacy.bind at 1 2. unfold Legacy.send.
  pose proof (Hdo (Legacy.Sent
                     (restRequest (BaseUrl c ++ BlockDetailPath ++ slotId))
                   :: tl)
                  (rpcRequest c ctx "eth_getBlockByHash"
                     (HexToHash w (BlockHash detail)))) as D2.
  destruct (Legacy.Do n (Legacy.Sent _ :: tl) _) as [a'|e'];
    rewrite Ht' in D2; [|discriminate].
  injection D2 as D2. rewrite Hbase, <- D2, Hd.
  unfold Legacy.ret at 1.
  match goal with
  | |- context [Legacy.bind (Legacy.rewardLoop n c ctx ?b ?txs ?acc) _ ?tr] =>
      destruct (legacy_rewardLoop n w c ctx b txs Hm Hw acc tr) as [t3 H3]
  end.
  rewrite (LegacyFacts.bind_then _ _ _ _ _ H3), Htot. reflexivity.
Qed.

(** The sample node at slot 4700013. *)
Lemma legacy_agrees_witness :
  fst (Legacy.GetBlockRewardAndStatusBySlot 1 (LegacySample.nodeOf Sample.w1)
         Sample.client Background "4700013" [])
  = Some ("0.001752007", "mev", None).
Proof.
  apply (legacy_agrees (LegacySample.nodeOf Sample.w1) Sample.w1 Sample.client
           Background "4700013" [] "0.001752007" "mev"
           (snd (GetBlockRewardAndStatusBySlot Sample.w1 Sample.client
                   Background "4700013" []))).
  - split; [reflexivity|]. intros t req. cbn.
    destruct (Sample.echo 200 req); reflexivity.
  - reflexivity.
  - intros resp [= <-]. vm_compute. discriminate.
  - reflexivity.
Defined.

(** *** No slot validation in the earlier client *)

Lemma extends_ret {A} (a : A) : Legacy.extends (Legacy.ret a).
Proof. intros t. now exists []. Qed.

Lemma extends_bind {A B} (m : Legacy.L A) (k : A -> Legacy.L B) :
  Legacy.extends m -> (forall a, Legacy.extends (k a)) ->
  Legacy.extends (Legacy.bind m k).
Proof.
  intros Hm Hk t. unfold Legacy.bind.
  destruct (Hm t) as [m1 E1]. destruct (m t) as [[a|] t1]; cbn [snd] in *.
  - destruct (Hk a t1) as [m2 E2]. exists (m2 ++ m1)%list.
    now rewrite E2, E1, app_assoc.
  - now exists m1.
Qed.

Lemma extends_send n req : Legacy.extends (Legacy.send n req).
Proof. intros t. now exists [Legacy.Sent req]. Qed.

Lemma extends_sleep d : Legacy.extends (Legacy.sleep d).
Proof. intros t. now exists [Legacy.Slept d]. Qed.

Lemma extends_sendAPIRequest {A} fuel n requestUrl requestName
    (unmarshal : string -> res A) :
  Legacy.extends (Legacy.sendAPIRequest fuel n requestUrl requestName unmarshal).
Proof.
  induction fuel as [|fuel IH]; cbn [Legacy.sendAPIRequest].
  - intros t. now exists [].
  - destruct (NewRequestError _ _); [apply extends_ret|].
    apply extends_bind; [apply extends_send|].
    intros [resp|e]; [|apply extends_ret].
    destruct (_ =? _).
    + destruct (Legacy.Atoi _); [|apply extends_ret].
      apply extends_bind; [apply extends_sleep|]. intros _. exact IH.
    + destruct (ReadAll _); [|apply extends_ret].
      destruct (unmarshal _); apply extends_ret.
Qed.

Lemma extends_rewardLoop n c ctx baseFee txs :
  forall acc, Legacy.extends (Legacy.rewardLoop n c ctx baseFee txs acc).
Proof.
  induction txs as [|tx rest IH]; intros acc; cbn [Legacy.rewardLoop].
  - apply extends_ret.
  - apply extends_bind.
    + apply extends_bind; [apply extends_send|].
      intros [resp|e]; apply extends_ret.
    + intros r. apply IH.
Qed.

(** After the block hash, only additions. *)
Lemma extends_reward_tail n c ctx (r : res Hash) :
  Legacy.extends
    (match r with
     | err e => Legacy.ret ("nil", "", Some e)
     | ok blockHash =>
         match Legacy.DialError n (BaseUrl c) with
         | Some e => Legacy.ret ("nil", "", Some e)
         | None =>
             Legacy.bind (Legacy.BlockByHash n c ctx blockHash) (fun r =>
             match r with
             | err e => Legacy.ret ("nil", "", Some e)
             | ok block =>
                 Legacy.bind
                   (Legacy.rewardLoop n c ctx (BaseFee block)
                      (Transactions block) (0, "vanilla")) (fun totals =>
                 let '(txCosts, status) := totals in
                 Legacy.ret
                   (rewardAsText
                      (txCosts - BaseFee block
                         * BigInt.int64_of_uint64 (GasUsed block)),
                    status, None))
             end)
         end
     end).
Proof.
  destruct r as [blockHash|e]; [|apply extends_ret].
  destruct (Legacy.DialError n (BaseUrl c)); [apply extends_ret|].
  apply extends_bind.
  - apply extends_bind; [apply extends_send|].
    intros [resp|e]; apply extends_ret.
  - intros [block|e]; [|apply extends_ret].
    apply extends_bind; [apply extends_rewardLoop|].
    intros [txCosts status]. apply extends_ret.
Qed.

(** X16. The earlier reward query validates no slot: whatever the slot
    string (a number or not, below the floor or above the head), the
    first thing it does is to send the block-detail request for that
    string; everything else it sends comes after. *)
Theorem legacy_no_slot_check n c ctx slotId fuel t :
  NewRequestError (Legacy.base n) (BaseUrl c ++ BlockDetailPath ++ slotId)
  = None ->
  exists more,
    snd (Legacy.GetBlockRewardAndStatusBySlot (S fuel) n c ctx slotId t)
    = (more
       ++ Legacy.Sent (restRequest (BaseUrl c ++ BlockDetailPath ++ slotId))
          :: t)%list.
Proof.
  intros Hn.
  unfold Legacy.GetBlockRewardAndStatusBySlot, Legacy.getBlockHash.
  cbn [Legacy.sendAPIRequest]. rewrite Hn.
  set (req := restRequest (BaseUrl c ++ BlockDetailPath ++ slotId)).
  match goal with
  | |- context [Legacy.bind (Legacy.bind (Legacy.bind (Legacy.send n req) ?k1)
                               ?k2) ?k3] =>
      assert (E : Legacy.extends
                    (fun t0 =>
                       Legacy.bind
                         (Legacy.bind (k1 (Legacy.Do n t req)) k2) k3 t0));
        [|destruct (E (Legacy.Sent req :: t)) as [more Hmore];
          exists more; rewrite <- Hmore; reflexivity]
  end.
  apply (extends_bind (Legacy.bind _ _)).
  - apply extends_bind.
    + destruct (Legacy.Do n t req) as [resp|e]; [|apply extends_ret].
      destruct (_ =? _).
      * destruct (Legacy.Atoi _); [|apply extends_ret].
        apply extends_bind; [apply extends_sleep|]. intros _.
        apply extends_sendAPIRequest.
      * destruct (ReadAll _); [|apply extends_ret].
        destruct (unmarshalBlockDetail _ _); apply extends_ret.
    + intros [detail|e]; apply extends_ret.
  - intros r. apply extends_reward_tail.
Qed.

(** Slot 5, below the floor of the current version. *)
Lemma legacy_no_slot_check_witness :
  snd (Legacy.GetBlockRewardAndStatusBySlot 1 (LegacySample.nodeOf Sample.w1)
         Sample.client Background "5" [])
  = [Legacy.Sent (rpcRequest Sample.client Background
                    "eth_getTransactionReceipt" "0x02");
     Legacy.Sent (rpcRequest Sample.client Background
                    "eth_getTransactionReceipt" "0x01");
     Legacy.Sent (rpcRequest Sample.client Background
                    "eth_getBlockByHash" "0xb10c");
     Legacy.Sent (restRequest "http://node/eth/v2/beacon/blocks/5")].
Proof.
  destruct (legacy_no_slot_check (LegacySample.nodeOf Sample.w1) Sample.client
              Background "5" 0 [] eq_refl) as [more H].
  reflexivity.
Defined.

(** *** The earlier handlers *)

(** X17. The earlier handlers know two replies only: 200 with the result
    when the query returns no error, and 500 with a nil payload for every
    error, so that a missing or future slot is never answered with 404 or
    400. *)
Theorem legacy_replies fuel n client c slotId t :
  (forall reward status e t',
     Legacy.GetBlockRewardAndStatusBySlot fuel n client c slotId t
     = (Some (reward, status, e), t') ->
     Legacy.GetBlockRewardHandler fuel n client c slotId t
     = (Some (match e with
              | Some _ => mkReply 500 JNil
              | None =>
                  mkReply 200 (JObject [("reward", reward); ("status", status)])
              end), t'))
  /\ (forall r t',
        Legacy.GetSyncCommitteeDuties fuel n client slotId t = (Some r, t') ->
        Legacy.GetSyncDutiesHandler fuel n client c slotId t
        = (Some (match r with
                 | err _ => mkReply 500 JNil
                 | ok pubKeys => mkReply 200 (JStrings pubKeys)
                 end), t'))
  /\ (forall reply t',
        Legacy.GetBlockRewardHandler fuel n client c slotId t
        = (Some reply, t') ->
        Code reply = 200 \/ reply = mkReply 500 JNil)
  /\ (forall reply t',
        Legacy.GetSyncDutiesHandler fuel n client c slotId t
        = (Some reply, t') ->
        Code reply = 200 \/ reply = mkReply 500 JNil).
Proof.
  unfold Legacy.GetBlockRewardHandler, Legacy.GetSyncDutiesHandler.
  repeat split.
  - intros reward status e t' H. rewrite (LegacyFacts.bind_then _ _ _ _ _ H).
    now destruct e.
  - intros r t' H. rewrite (LegacyFacts.bind_then _ _ _ _ _ H).
    now destruct r.
  - intros reply t'. unfold Legacy.bind.
    destruct (Legacy.GetBlockRewardAndStatusBySlot fuel n client c slotId t)
      as [[[[reward status] [e|]]|] t1]; unfold Legacy.ret;
      intros [= <- _]; auto.
  - intros reply t'. unfold Legacy.bind.
    destruct (Legacy.GetSyncCommitteeDuties fuel n client slotId t)
      as [[[pubKeys|e]|] t1]; unfold Legacy.ret; intros [= <- _]; auto.
Qed.

(** The node that answers every REST request with 400: the current duty
    handler replies 404, the earlier one decodes the body and replies
    200. *)
Lemma legacy_replies_witness :
  fst (Legacy.GetBlockRewardHandler 1 (LegacySample.nodeOf Sample.w1)
         Sample.client Background "5" [])
  = Some (mkReply 200 (JObject [("reward", "0.001752007"); ("status", "mev")]))
  /\ fst (Legacy.GetSyncDutiesHandler 1
            (LegacySample.nodeOf Sample.wBadRequest) Sample.client Background
            "5" [])
     = Some (mkReply 200 (JStrings ["0xaa"; "0xbb"])).
Proof.
  destruct (legacy_replies 1 (LegacySample.nodeOf Sample.w1) Sample.client
              Background "5" []) as (H & _).
  destruct (legacy_replies 1 (LegacySample.nodeOf Sample.wBadRequest)
              Sample.client Background "5" []) as (_ & D & _).
  split.
  - now rewrite (H "0.001752007" "mev" None _ eq_refl).
  - now rewrite (D (ok ["0xaa"; "0xbb"]) _ eq_refl).
Defined.
